(** * Peer-to-peer transport of boardgame.io ([src/client/transport/p2p.ts])

    A shallow embedding of [P2PHost] (the host-side router around a local
    [Master]) and of [P2PTransport] (the role-agnostic transport built on
    PeerJS), followed by the properties of the synchronisation protocol.

    JavaScript objects are kept in explicit stores and named by references,
    closures are kept as data (what they captured), and a call that may
    throw returns a [Completion]. *)

From Stdlib Require Import ZArith List Bool Permutation.
From stdpp Require Import base list strings option.
Import ListNotations.

Local Open Scope Z_scope.
Local Open Scope string_scope.
Local Open Scope list_scope.

(** ** JavaScript values and completions *)

(** The values that travel in action argument lists and payloads. Objects
    ([action], [chatMessage], pushed state, ...) are opaque and named by a
    tag. *)
Inductive JSValue : Type :=
| JSUndefined
| JSNull
| JSBool (b : bool)
| JSNumber (n : Z)
| JSString (s : string)
| JSObject (o : nat).

(** [PlayerID] is a string; [None] is the [null] of a spectator. On these
    values [!==] is plain disequality. *)
Definition PlayerID : Type := option string.

Definition PlayerID_eqb (a b : PlayerID) : bool :=
  match a, b with
  | None, None => true
  | Some x, Some y => String.eqb x y
  | _, _ => false
  end.

Definition PlayerID_value (p : PlayerID) : JSValue :=
  match p with
  | Some s => JSString s
  | None => JSNull
  end.

(** [credentials?: string]. *)
Definition credentials_value (c : option string) : JSValue :=
  match c with
  | Some s => JSString s
  | None => JSUndefined
  end.

(** A payload pushed by the master to a client. *)
Definition Data : Type := JSValue.

(** The outcome of running a piece of JavaScript: it returns, or it throws. *)
Inductive Completion (A : Type) : Type :=
| Normal (a : A)
| Throw (e : JSValue).
Arguments Normal {A} a.
Arguments Throw {A} e.

(** ** [Map], with the insertion order its iteration follows *)

Module JSMap.
Section WithKey.
Context {K V : Type} (eqb : K -> K -> bool).

Definition t : Type := list (K * V).

Definition empty : t := [].

(** [m.set(k, v)]: an existing key keeps its place and takes the new
    value, a new key goes last. *)
Fixpoint set (k : K) (v : V) (m : t) : t :=
  match m with
  | [] => [(k, v)]
  | (k', v') :: rest =>
      if eqb k' k then (k', v) :: rest else (k', v') :: set k v rest
  end.

(** [m.delete(k)]. *)
Fixpoint delete (k : K) (m : t) : t :=
  match m with
  | [] => []
  | (k', v') :: rest =>
      if eqb k' k then rest else (k', v') :: delete k rest
  end.

Definition keys (m : t) : list K := map fst m.
End WithKey.
End JSMap.

(** ** Clients of the host *)

Record Metadata : Type := { playerID : PlayerID }.

(** [interface Client]: [send] is a callback of the connection (PeerJS's
    [DataConnection.send], or the loopback of the host's own player); all
    the router sees of a call is whether it returns or throws. *)
Record Client : Type := {
  send : Data -> Completion unit;
  metadata : Metadata;
}.

(** Client objects are compared by identity: a reference into the store. *)
Definition ClientRef : Type := nat.
Definition ClientStore : Type := ClientRef -> Client.

(** [type ClientAction], as it arrives at run time: remote peers send
    arbitrary data, so the tag is a string. *)
Record ClientAction : Type := {
  type : string;
  args : list JSValue;
}.

(** ** The master, seen from the router *)

Definition Game : Type := nat.

(** What [db.createMatch] was given: the arguments of [InitializeGame] and
    [createMetadata]. *)
Record MatchSeed : Type := {
  seed_game : Game;
  seed_numPlayers : Z;
}.

Definition InMemory : Type := list (string * MatchSeed).

Inductive MasterMethod : Type :=
| onUpdate
| onChatMessage
| onSync
| onConnectionChange.

(** A call of a method of [Master] with its positional arguments. *)
Record MasterCall : Type := {
  method : MasterMethod;
  arguments : list JSValue;
}.

(** Modelled from the spec: [Master] ([../../master/master]) is not among
    the sources; the spec takes it as an opaque engine with the entry points
    [onUpdate], [onChatMessage], [onSync] and [onConnectionChange], which the
    router only calls. Its state here is what it was built from and the
    calls it has received, oldest first; a call returns to the router. *)
Record Master : Type := {
  master_game : Game;
  master_db : InMemory;
  received : list MasterCall;
}.

Definition Master_call (c : MasterCall) (m : Master) : Master :=
  {| master_game := master_game m;
     master_db := master_db m;
     received := received m ++ [c] |}.

(** ** [class P2PHost] *)

Module P2PHost.

Record t : Type := {
  clients : JSMap.t (K := ClientRef) (V := ClientRef);
  matchID : string;
  master : Master;
}.

(** [constructor({ game, numPlayers = 2, matchID })]. *)
Definition new (game : Game) (numPlayers : option Z) (matchID : string) : t :=
  let numPlayers := match numPlayers with Some n => n | None => 2 end in
  let db := [(matchID, {| seed_game := game; seed_numPlayers := numPlayers |})] in
  {| clients := JSMap.empty;
     matchID := matchID;
     master := {| master_game := game; master_db := db; received := [] |} |}.

Definition with_master (f : Master -> Master) (h : t) : t :=
  {| clients := clients h; matchID := matchID h; master := f (master h) |}.

Definition with_clients (f : JSMap.t -> JSMap.t) (h : t) : t :=
  {| clients := f (clients h); matchID := matchID h; master := master h |}.

(** The result of a fan-out: the clients whose [send] was called with the
    payload, in call order, and how the loop ended. *)
Definition Fanout : Type := list ClientRef * Completion unit.

(** The body of [for (const [client] of this.clients)] in the [send]
    callback handed to the master. *)
Fixpoint send_loop (store : ClientStore) (entries : list (ClientRef * ClientRef))
    (target : PlayerID) (data : Data) : Fanout :=
  match entries with
  | [] => ([], Normal tt)
  | (client, _) :: rest =>
      if negb (PlayerID_eqb (playerID (metadata (store client))) target)
      then send_loop store rest target data
      else
        match send (store client) data with
        | Normal _ =>
            let '(called, r) := send_loop store rest target data in
            (client :: called, r)
        | Throw e => ([client], Throw e)
        end
  end.

(** The body of the loop in the [sendAll] callback. *)
Fixpoint sendAll_loop (store : ClientStore) (entries : list (ClientRef * ClientRef))
    (data : Data) : Fanout :=
  match entries with
  | [] => ([], Normal tt)
  | (client, _) :: rest =>
      match send (store client) data with
      | Normal _ =>
          let '(called, r) := sendAll_loop store rest data in
          (client :: called, r)
      | Throw e => ([client], Throw e)
      end
  end.

(** [send: ({ playerID, ...data }) => { ... }]. *)
Definition master_send (store : ClientStore) (h : t) (target : PlayerID) (data : Data)
    : Fanout :=
  send_loop store (clients h) target data.

(** [sendAll: (data) => { ... }]. *)
Definition master_sendAll (store : ClientStore) (h : t) (data : Data) : Fanout :=
  sendAll_loop store (clients h) data.

Definition connectionChange (h : t) (p : PlayerID) (connected : bool) : MasterCall :=
  {| method := onConnectionChange;
     arguments := [JSString (matchID h); PlayerID_value p; JSUndefined; JSBool connected] |}.

Definition registerClient (store : ClientStore) (client : ClientRef) (h : t) : t :=
  let h := with_clients (JSMap.set Nat.eqb client client) h in
  with_master (Master_call (connectionChange h (playerID (metadata (store client))) true)) h.

Definition unregisterClient (store : ClientStore) (client : ClientRef) (h : t) : t :=
  let h := with_clients (JSMap.delete Nat.eqb client) h in
  with_master (Master_call (connectionChange h (playerID (metadata (store client))) false)) h.

(** [switch (data.type)]: the three cases, and no [default]. *)
Definition processAction (data : ClientAction) (h : t) : t :=
  if String.eqb (type data) "update" then
    with_master (Master_call {| method := onUpdate; arguments := args data |}) h
  else if String.eqb (type data) "chat" then
    with_master (Master_call {| method := onChatMessage; arguments := args data |}) h
  else if String.eqb (type data) "sync" then
    with_master (Master_call {| method := onSync; arguments := args data |}) h
  else h.

(** The registrations, in insertion order. *)
Definition registrations (h : t) : list ClientRef := JSMap.keys (clients h).

(** A [Map] holds a key once. *)
Definition wf (h : t) : Prop := NoDup (registrations h).

(** The registrations whose metadata [playerID] is the target. *)
Definition matches (store : ClientStore) (target : PlayerID) (c : ClientRef) : bool :=
  PlayerID_eqb (playerID (metadata (store c))) target.

Definition recipients (store : ClientStore) (h : t) (target : PlayerID) : list ClientRef :=
  List.filter (matches store target) (registrations h).

(** [send] of a client returns on this payload. *)
Definition returns (store : ClientStore) (data : Data) (c : ClientRef) : Prop :=
  forall e, send (store c) data <> Throw e.

(** Isolation of a failing [send], for [sendAll] and for [send]: every other
    registration that should receive the payload does. *)
Definition sendAll_isolates_failure (store : ClientStore) (h : t) : Prop :=
  forall data bad e,
    bad ∈ registrations h -> send (store bad) data = Throw e ->
    forall c, c ∈ registrations h -> c <> bad ->
      c ∈ (master_sendAll store h data).1.

Definition send_isolates_failure (store : ClientStore) (h : t) : Prop :=
  forall target data bad e,
    bad ∈ registrations h -> send (store bad) data = Throw e ->
    forall c, c ∈ recipients store h target -> c <> bad ->
      c ∈ (master_send store h target data).1.

(** [send(playerID, payload)] delivers to exactly the registrations of the
    target seat, and raises nothing when there is none. *)
Definition send_delivers_exactly_to_seat (store : ClientStore) (h : t) : Prop :=
  forall target data,
    (forall c, c ∈ (master_send store h target data).1 <-> c ∈ recipients store h target)
    /\ (recipients store h target = [] ->
        (master_send store h target data).2 = Normal tt).

(** [sendAll(payload)] delivers to every registration exactly once. *)
Definition sendAll_delivers_once_to_all (store : ClientStore) (h : t) : Prop :=
  forall data c,
    c ∈ registrations h ->
    count_occ Nat.eq_dec (master_sendAll store h data).1 c = 1%nat.

(** *** A host driven by its callers

    The calls a transport makes on the router it built: [registerClient]
    and [unregisterClient] from the connection events, [processAction] from
    the emit-path and from the data events. *)
Inductive Op : Type :=
| Register (c : ClientRef)
| Unregister (c : ClientRef)
| Process (data : ClientAction).

Definition step (store : ClientStore) (h : t) (op : Op) : t :=
  match op with
  | Register c => registerClient store c h
  | Unregister c => unregisterClient store c h
  | Process data => processAction data h
  end.

Definition steps (store : ClientStore) (ops : list Op) (h : t) : t :=
  fold_left (step store) ops h.

(** Whether the last of [ops] that names [c] registers it; [before] when
    none does. *)
Definition live_after (ops : list Op) (c : ClientRef) (before : bool) : bool :=
  fold_left (fun b op =>
               match op with
               | Register c' => if Nat.eqb c' c then true else b
               | Unregister c' => if Nat.eqb c' c then false else b
               | Process _ => b
               end) ops before.

(** The method of the master an action tag selects. *)
Definition method_of_tag (tag : string) : option MasterMethod :=
  if String.eqb tag "update" then Some onUpdate
  else if String.eqb tag "chat" then Some onChatMessage
  else if String.eqb tag "sync" then Some onSync
  else None.

(** What the master of a host for [matchID] is told by one call. *)
Definition calls_of (store : ClientStore) (matchID : string) (op : Op) : list MasterCall :=
  match op with
  | Register c =>
      [{| method := onConnectionChange;
          arguments := [JSString matchID; PlayerID_value (playerID (metadata (store c)));
                        JSUndefined; JSBool true] |}]
  | Unregister c =>
      [{| method := onConnectionChange;
          arguments := [JSString matchID; PlayerID_value (playerID (metadata (store c)));
                        JSUndefined; JSBool false] |}]
  | Process data =>
      match method_of_tag (type data) with
      | Some m => [{| method := m; arguments := args data |}]
      | None => []
      end
  end.

End P2PHost.

(** ** The base class [Transport] *)

Module Transport.

(** Modelled from the spec: the base class [Transport] ([./transport]) is
    not among the sources. It holds the identity parameters the subclass
    reads and writes ([gameName], [matchID], [playerID], [credentials],
    [numPlayers]), the connection status that [setConnectionStatus] records
    (true: Connected) and the application callback [clientCallback] that
    applies a pushed update, of which only the completion is seen here. *)
Record t : Type := {
  gameName : string;
  matchID : string;
  playerID : PlayerID;
  credentials : option string;
  numPlayers : Z;
  isConnected : bool;
  clientCallback : Data -> Completion unit;
}.

Definition set_matchID (id : string) (b : t) : t :=
  {| gameName := gameName b; matchID := id; playerID := playerID b;
     credentials := credentials b; numPlayers := numPlayers b;
     isConnected := isConnected b; clientCallback := clientCallback b |}.



(** Modelled from the spec: [setConnectionStatus(connected)] of the missing
    base class records the connection status. *)
Definition setConnectionStatus (connected : bool) (b : t) : t :=
  {| gameName := gameName b; matchID := matchID b; playerID := playerID b;
     credentials := credentials b; numPlayers := numPlayers b;
     isConnected := connected; clientCallback := clientCallback b |}.

End Transport.

(** ** PeerJS objects and the world around a transport *)

Definition PeerRef : Type := nat.
Definition ConnRef : Type := nat.
Definition HostRef : Type := nat.
Definition PeerJSOption : Type := nat.

(** A field that starts [undefined], holds an object, or was set to [null]. *)
Inductive Handle (A : Type) : Type :=
| Undefined
| Null
| Obj (a : A).
Arguments Undefined {A}.
Arguments Null {A}.
Arguments Obj {A} a.

(** The closure given to [peer.on('open', ...)] on the client path; it
    captured [hostID] and [metadata]. *)
Record OpenHandler : Type := {
  open_hostID : option string;
  open_metadata : Metadata;
}.

(** A [Peer] made by [new Peer(id, options)], the handlers registered on it
    and whether [destroy()] was called. The ['connection'] handler captured
    its host. *)
Record Peer : Type := {
  peer_id : option string;
  peer_options : PeerJSOption;
  on_connection : option HostRef;
  on_open : option OpenHandler;
  destroyed : bool;
}.

(** A connection made by [peer.connect(hostID, { metadata })]: where it was
    dialled, its handlers, and what was given to its [send], oldest first. *)
Record DataConnection : Type := {
  conn_peer : PeerRef;
  conn_target : option string;
  conn_metadata : Metadata;
  conn_on_open : bool;
  conn_on_data : bool;
  conn_sent : list ClientAction;
}.

(** The closure stored in [this.emit]. *)
Inductive Emit : Type :=
| EmitToHost (h : HostRef)      (* (action) => void host.processAction(action) *)
| EmitToConnection (c : ConnRef). (* (action) => void host.send(action) *)

Record World : Type := {
  hosts : list P2PHost.t;
  store : ClientStore;
  allocated : nat;
  peers : list Peer;
  connections : list DataConnection;
  (** remote clients accepted by a host, with the host their ['data'] and
      ['close'] handlers captured *)
  accepted : list (ClientRef * HostRef);
}.

Definition set_hosts (hs : list P2PHost.t) (w : World) : World :=
  {| hosts := hs; store := store w; allocated := allocated w; peers := peers w;
     connections := connections w; accepted := accepted w |}.

Definition set_peers (ps : list Peer) (w : World) : World :=
  {| hosts := hosts w; store := store w; allocated := allocated w; peers := ps;
     connections := connections w; accepted := accepted w |}.

Definition set_connections (cs : list DataConnection) (w : World) : World :=
  {| hosts := hosts w; store := store w; allocated := allocated w; peers := peers w;
     connections := cs; accepted := accepted w |}.

Definition add_accepted (client : ClientRef) (h : HostRef) (w : World) : World :=
  {| hosts := hosts w; store := store w; allocated := allocated w; peers := peers w;
     connections := connections w; accepted := accepted w ++ [(client, h)] |}.

(** A new client object; its reference is the old [allocated]. *)
Definition new_client (c : Client) (w : World) : World :=
  {| hosts := hosts w;
     store := fun r => if Nat.eqb r (allocated w) then c else store w r;
     allocated := S (allocated w); peers := peers w;
     connections := connections w; accepted := accepted w |}.

(** [peer.destroy()], as far as the call itself goes: the peer is marked.
    PeerJS is not among the sources. By its documentation [destroy()] also
    terminates the connections of the peer, and a connection that ends
    raises its ['close'] event; the only ['close'] handler this file
    registers is the one of an accepted remote client (line 170), and its
    run is the event [ClientClose] of [dispatch], not a part of this
    function. A result that needs no such handler to run says so in a
    hypothesis. *)
Definition destroy (p : Peer) : Peer :=
  {| peer_id := peer_id p; peer_options := peer_options p;
     on_connection := on_connection p; on_open := on_open p; destroyed := true |}.

Definition on_connection_set (h : HostRef) (p : Peer) : Peer :=
  {| peer_id := peer_id p; peer_options := peer_options p;
     on_connection := Some h; on_open := on_open p; destroyed := destroyed p |}.

Definition on_open_set (f : OpenHandler) (p : Peer) : Peer :=
  {| peer_id := peer_id p; peer_options := peer_options p;
     on_connection := on_connection p; on_open := Some f; destroyed := destroyed p |}.

Definition conn_send (action : ClientAction) (c : DataConnection) : DataConnection :=
  {| conn_peer := conn_peer c; conn_target := conn_target c;
     conn_metadata := conn_metadata c; conn_on_open := conn_on_open c;
     conn_on_data := conn_on_data c; conn_sent := conn_sent c ++ [action] |}.

(** ** [class P2PTransport extends Transport] *)

Module P2PTransport.

Record t : Type := {
  base : Transport.t;
  peer : Handle PeerRef;
  peerJSOptions : PeerJSOption;
  isHost : bool;
  game : Game;
  emit : option Emit;
}.

Definition with_base (f : Transport.t -> Transport.t) (self : t) : t :=
  {| base := f (base self); peer := peer self; peerJSOptions := peerJSOptions self;
     isHost := isHost self; game := game self; emit := emit self |}.

Definition set_peer (p : Handle PeerRef) (self : t) : t :=
  {| base := base self; peer := p; peerJSOptions := peerJSOptions self;
     isHost := isHost self; game := game self; emit := emit self |}.

Definition set_emit (e : Emit) (self : t) : t :=
  {| base := base self; peer := peer self; peerJSOptions := peerJSOptions self;
     isHost := isHost self; game := game self; emit := Some e |}.

(** [constructor({ isHost, peerJSOptions = {}, ...opts })]; [b] is what
    [super(opts)] built. *)
Definition new (isHost : bool) (peerJSOptions : PeerJSOption) (game : Game)
    (b : Transport.t) : t :=
  {| base := b; peer := Undefined; peerJSOptions := peerJSOptions;
     isHost := isHost; game := game; emit := None |}.

(** A transport together with the objects it reaches. *)
Definition State : Type := t * World.

(** A string is truthy when it is not empty. *)
Definition truthy (s : string) : bool :=
  match s with
  | EmptyString => false
  | String _ _ => true
  end.

Definition namespacedPeerID (self : t) : option string :=
  if truthy (Transport.matchID (base self))
  then Some ("boardgameio-" +:+ Transport.gameName (base self) +:+ "-matchid-"
               +:+ Transport.matchID (base self))
  else None.

(** Calling the closure in [this.emit]. *)
Definition call_emit (e : Emit) (action : ClientAction) (w : World) : World :=
  match e with
  | EmitToHost h => set_hosts (alter (P2PHost.processAction action) h (hosts w)) w
  | EmitToConnection c => set_connections (alter (conn_send action) c (connections w)) w
  end.

Definition syncAction (self : t) : ClientAction :=
  {| type := "sync";
     args := [JSString (Transport.matchID (base self));
              PlayerID_value (Transport.playerID (base self));
              credentials_value (Transport.credentials (base self));
              JSNumber (Transport.numPlayers (base self))] |}.

Definition requestSync (st : State) : State :=
  let '(self, w) := st in
  match emit self with
  | None => st
  | Some e => (self, call_emit e (syncAction self) w)
  end.

(** [state] enters only through [state._stateID]. *)
Definition updateAction (self : t) (stateID : JSValue) (action : JSValue) : ClientAction :=
  {| type := "update";
     args := [action; stateID; JSString (Transport.matchID (base self));
              PlayerID_value (Transport.playerID (base self))] |}.

Definition sendAction (stateID : JSValue) (action : JSValue) (st : State) : State :=
  let '(self, w) := st in
  match emit self with
  | None => st
  | Some e => (self, call_emit e (updateAction self stateID action) w)
  end.

Definition chatAction (self : t) (matchID : string) (chatMessage : JSValue) : ClientAction :=
  {| type := "chat";
     args := [JSString matchID; chatMessage;
              credentials_value (Transport.credentials (base self))] |}.

Definition sendChatMessage (matchID : string) (chatMessage : JSValue) (st : State) : State :=
  let '(self, w) := st in
  match emit self with
  | None => st
  | Some e => (self, call_emit e (chatAction self matchID chatMessage) w)
  end.

Definition connect (st : State) : State :=
  let '(self, w) := st in
  let hostID := namespacedPeerID self in
  let metadata := {| playerID := Transport.playerID (base self) |} in
  (* this.peer = new Peer(this.isHost ? hostID : undefined, this.peerJSOptions) *)
  let p : PeerRef := length (peers w) in
  let w := set_peers (peers w ++ [{| peer_id := if isHost self then hostID else None;
                                     peer_options := peerJSOptions self;
                                     on_connection := None; on_open := None;
                                     destroyed := false |}]) w in
  let self := set_peer (Obj p) self in
  let '(self, w) :=
    if isHost self then
      (* const host = new P2PHost({ game, numPlayers, matchID }) *)
      let h : HostRef := length (hosts w) in
      let w := set_hosts (hosts w ++ [P2PHost.new (game self)
                                        (Some (Transport.numPlayers (base self)))
                                        (Transport.matchID (base self))]) w in
      let self := set_emit (EmitToHost h) self in
      (* host.registerClient({ send: (data) => void this.clientCallback(data), metadata }) *)
      let client : ClientRef := allocated w in
      let w := new_client {| send := Transport.clientCallback (base self);
                             metadata := metadata |} w in
      let w := set_hosts (alter (P2PHost.registerClient (store w) client) h (hosts w)) w in
      (* this.peer.on('connection', ...) *)
      let w := set_peers (alter (on_connection_set h) p (peers w)) w in
      requestSync (self, w)
    else
      (* this.peer.on('open', ...) *)
      let w := set_peers (alter (on_open_set {| open_hostID := hostID;
                                                open_metadata := metadata |}) p (peers w)) w in
      (self, w)
  in
  (with_base (Transport.setConnectionStatus true) self, w).

Definition disconnect (st : State) : State :=
  let '(self, w) := st in
  let w :=
    match peer self with
    | Obj p => set_peers (alter destroy p (peers w)) w
    | _ => w
    end in
  (with_base (Transport.setConnectionStatus false) (set_peer Null self), w).

Definition resetAndReconnect (st : State) : State := connect (disconnect st).

Definition updateMatchID (id : string) (st : State) : State :=
  let '(self, w) := st in
  resetAndReconnect (with_base (Transport.set_matchID id) self, w).



(** *** The handlers, run when PeerJS fires their event *)

Definition TypeError : JSValue := JSString "TypeError".

(** ['open'] on the peer of a client: dial the host, install the emit-path,
    listen on the connection. [this.peer] is read when the handler runs. *)
Definition peer_open (f : OpenHandler) (st : State) : Completion State :=
  let '(self, w) := st in
  match peer self with
  | Obj p =>
      let c : ConnRef := length (connections w) in
      let w := set_connections
                 (connections w ++ [{| conn_peer := p; conn_target := open_hostID f;
                                       conn_metadata := open_metadata f;
                                       conn_on_open := true; conn_on_data := true;
                                       conn_sent := [] |}]) w in
      Normal (set_emit (EmitToConnection c) self, w)
  | _ => Throw TypeError
  end.

(** ['connection'] on the peer of a host. *)
Definition peer_connection (h : HostRef) (client : Client) (st : State) : State :=
  let '(self, w) := st in
  let r : ClientRef := allocated w in
  let w := new_client client w in
  let w := set_hosts (alter (P2PHost.registerClient (store w) r) h (hosts w)) w in
  (self, add_accepted r h w).

Inductive Event : Type :=
| PeerOpen (p : PeerRef)
| PeerConnection (p : PeerRef) (client : Client)
| ConnectionOpen (c : ConnRef)
| ConnectionData (c : ConnRef) (data : Data)
| ClientData (client : ClientRef) (data : ClientAction)
| ClientClose (client : ClientRef).

Definition handler_of (client : ClientRef) (w : World) : option HostRef :=
  snd <$> find (fun e => Nat.eqb (fst e) client) (accepted w).

(** What the transport does when PeerJS fires [ev]; an event nobody
    listens to does nothing. *)
Definition dispatch (ev : Event) (st : State) : Completion State :=
  let '(self, w) := st in
  match ev with
  | PeerOpen p =>
      match peers w !! p ≫= on_open with
      | Some f => peer_open f st
      | None => Normal st
      end
  | PeerConnection p client =>
      match peers w !! p ≫= on_connection with
      | Some h => Normal (peer_connection h client st)
      | None => Normal st
      end
  | ConnectionOpen c =>
      match conn_on_open <$> connections w !! c with
      | Some true => Normal (requestSync st)
      | _ => Normal st
      end
  | ConnectionData c data =>
      match conn_on_data <$> connections w !! c with
      | Some true =>
          match Transport.clientCallback (base self) data with
          | Normal _ => Normal st
          | Throw e => Throw e
          end
      | _ => Normal st
      end
  | ClientData client data =>
      match handler_of client w with
      | Some h => Normal (self, set_hosts (alter (P2PHost.processAction data) h (hosts w)) w)
      | None => Normal st
      end
  | ClientClose client =>
      match handler_of client w with
      | Some h =>
          Normal (self, set_hosts (alter (P2PHost.unregisterClient (store w) client) h
                                     (hosts w)) w)
      | None => Normal st
      end
  end.



(** The events PeerJS fires, one after the other. An error thrown by a
    handler is not caught by the transport; both handlers that can throw do
    so before they change anything, so the next event finds the state as it
    was. *)
Fixpoint run (evs : list Event) (st : State) : State :=
  match evs with
  | [] => st
  | ev :: rest =>
      match dispatch ev st with
      | Normal st' => run rest st'
      | Throw _ => run rest st
      end
  end.

(** A non-host transport is Connected only once its dial has succeeded. *)
Definition connected_only_after_dial (st : State) : Prop :=
  forall evs,
    Transport.isConnected (base (run evs (connect st)).1) = true ->
    exists c, ConnectionOpen c ∈ evs.



(** What [disconnect()] followed by [connect()] has made of a transport
    [stored] (the new parameter already stored) in a world [w], once the
    call has returned with [st]. On both roles the parameters are those of
    [stored], the status is Connected, the peer is a new one and the old
    one, if any, was destroyed. A host has a new router for the current
    match with its loopback client registered, listens under its endpoint
    name, and the master of the new router has received the [Sync]. A
    client has issued nothing and still holds the emit-path it had; the
    [Sync] leaves on the new connection when the new peer has opened, has
    dialled the endpoint name, and that connection has opened. *)
Definition reconnected (stored : t) (w : World) (st : State) : Prop :=
  let p : PeerRef := length (peers w) in
  let seat := Transport.playerID (base stored) in
  base st.1 = Transport.setConnectionStatus true (base stored)
  /\ peer st.1 = Obj p
  /\ (forall old, peer stored = Obj old -> (old < p)%nat ->
        peers st.2 !! old = destroy <$> peers w !! old)
  /\ if isHost stored then
       emit st.1 = Some (EmitToHost (length (hosts w)))
       /\ peer_id <$> peers st.2 !! p = Some (namespacedPeerID stored)
       /\ connections st.2 = connections w
       /\ playerID (metadata (store st.2 (allocated w))) = seat
       /\ exists host,
            hosts st.2 = hosts w ++ [host]
            /\ P2PHost.matchID host = Transport.matchID (base stored)
            /\ P2PHost.registrations host = [allocated w]
            /\ received (P2PHost.master host)
               = [{| method := onConnectionChange;
                     arguments := [JSString (Transport.matchID (base stored));
                                   PlayerID_value seat; JSUndefined; JSBool true] |};
                  {| method := onSync; arguments := args (syncAction stored) |}]
     else
       let c : ConnRef := length (connections w) in
       emit st.1 = emit stored
       /\ hosts st.2 = hosts w
       /\ connections st.2 = connections w
       /\ peer_id <$> peers st.2 !! p = Some None
       /\ (let st' := run [PeerOpen p] st in
           emit st'.1 = Some (EmitToConnection c)
           /\ connections st'.2
              = connections w ++ [{| conn_peer := p;
                                     conn_target := namespacedPeerID stored;
                                     conn_metadata := {| playerID := seat |};
                                     conn_on_open := true; conn_on_data := true;
                                     conn_sent := [] |}])
       /\ (let st' := run [PeerOpen p; ConnectionOpen c] st in
           base st'.1 = Transport.setConnectionStatus true (base stored)
           /\ hosts st'.2 = hosts w
           /\ connections st'.2
              = connections w ++ [{| conn_peer := p;
                                     conn_target := namespacedPeerID stored;
                                     conn_metadata := {| playerID := seat |};
                                     conn_on_open := true; conn_on_data := true;
                                     conn_sent := [syncAction stored] |}]).

(** *** [export function P2P] *)

(** [interface P2POpts]; [None] is a field left out. *)
Record P2POpts : Type := {
  opt_isHost : option bool;
  opt_peerJSOptions : option PeerJSOption;
}.

(** The object [{}]. *)
Definition emptyOptions : PeerJSOption := 0%nat.

(** [P2P(p2pOpts)(transportOpts)]: the constructor takes [Boolean(isHost)]
    and defaults [peerJSOptions] to [{}]; [game] and what [super(opts)]
    builds come from [transportOpts]. *)
Definition P2P (p2pOpts : P2POpts) (game : Game) (b : Transport.t) : t :=
  new (match opt_isHost p2pOpts with Some ih => ih | None => false end)
      (match opt_peerJSOptions p2pOpts with Some o => o | None => emptyOptions end)
      game b.

(** Every remote client with handlers is an object that exists. *)
Definition accepted_allocated (w : World) : Prop :=
  forall e, e ∈ accepted w -> (e.1 < allocated w)%nat.

End P2PTransport.

Arguments P2PTransport.namespacedPeerID : simpl never.
Arguments P2PTransport.syncAction : simpl never.

(** ** Small worlds to run the definitions on *)

Module Example.

(** Clients 0 and 2 sit on seat "0", client 1 on seat "1"; every [send]
    returns. *)
Definition seated : ClientStore := fun r =>
  {| send := fun _ => Normal tt;
     metadata := {| playerID := match r with
                                | 0%nat | 2%nat => Some "0"
                                | _ => Some "1"
                                end |} |}.

(** The same clients, but the connection of client 0 is broken. *)
Definition broken : ClientStore := fun r =>
  {| send := fun _ => match r with
                      | 0%nat => Throw (JSString "Connection is not open")
                      | _ => Normal tt
                      end;
     metadata := metadata (seated r) |}.

(** The same clients, but the connections of clients 1 and 2 are broken:
    one off seat "0" and one on it, both behind client 0. *)
Definition flaky : ClientStore := fun r =>
  {| send := fun _ => match r with
                      | 0%nat => Normal tt
                      | _ => Throw (JSString "Connection is not open")
                      end;
     metadata := metadata (seated r) |}.

Definition register_all (s : ClientStore) (cs : list ClientRef) (h : P2PHost.t)
    : P2PHost.t :=
  fold_left (fun h c => P2PHost.registerClient s c h) cs h.

Definition host (s : ClientStore) : P2PHost.t :=
  register_all s [0; 1; 2]%nat (P2PHost.new 0%nat None "M1").

Definition payload : Data := JSObject 7%nat.

Definition base : Transport.t :=
  {| Transport.gameName := "tic-tac-toe";
     Transport.matchID := "M1";
     Transport.playerID := Some "0";
     Transport.credentials := Some "secret";
     Transport.numPlayers := 2;
     Transport.isConnected := false;
     Transport.clientCallback := fun _ => Normal tt |}.

Definition world : World :=
  {| hosts := []; store := seated; allocated := 0; peers := [];
     connections := []; accepted := [] |}.

(** A client and a host transport, just constructed. *)
Definition client : P2PTransport.State := (P2PTransport.new false 0%nat 0%nat base, world).
Definition hosting : P2PTransport.State := (P2PTransport.new true 0%nat 0%nat base, world).

(** The client after [connect()], the opening of its peer and the opening
    of its connection to the host. *)
Definition synced_client : P2PTransport.State :=
  P2PTransport.run [P2PTransport.PeerOpen 0%nat; P2PTransport.ConnectionOpen 0%nat]
    (P2PTransport.connect client).

(** A client transport for a game and a match. *)
Definition playing (gameName matchID : string) : P2PTransport.t :=
  P2PTransport.new false 0%nat 0%nat
    {| Transport.gameName := gameName; Transport.matchID := matchID;
       Transport.playerID := None; Transport.credentials := None;
       Transport.numPlayers := 2; Transport.isConnected := false;
       Transport.clientCallback := fun _ => Normal tt |}.

End Example.

(** * Properties *)

(** ** The registration map *)

Section MapFacts.
Context {V : Type}.
Implicit Types (m : JSMap.t (K := nat) (V := V)) (k : nat) (v : V).

Lemma keys_set_absent m k v :
  k ∉ JSMap.keys m -> JSMap.keys (JSMap.set Nat.eqb k v m) = JSMap.keys m ++ [k].
Proof.
  induction m as [|[k' v'] m IH]; simpl; intros Hk; [reflexivity|].
  apply not_elem_of_cons in Hk as [Hne Hk].
  destruct (Nat.eqb_spec k' k) as [->|_]; [congruence|].
  simpl. f_equal. now apply IH.
Qed.

Lemma keys_set_present m k v :
  k ∈ JSMap.keys m -> JSMap.keys (JSMap.set Nat.eqb k v m) = JSMap.keys m.
Proof.
  induction m as [|[k' v'] m IH]; simpl; intros Hk; [now apply elem_of_nil in Hk|].
  destruct (Nat.eqb_spec k' k) as [->|Hne]; [reflexivity|].
  simpl. f_equal. apply IH. apply elem_of_cons in Hk as [Heq|Hk]; [congruence | assumption].
Qed.

Lemma delete_absent m k : k ∉ JSMap.keys m -> JSMap.delete Nat.eqb k m = m.
Proof.
  induction m as [|[k' v'] m IH]; simpl; intros Hk; [reflexivity|].
  apply not_elem_of_cons in Hk as [Hne Hk].
  destruct (Nat.eqb_spec k' k) as [->|_]; [congruence|].
  f_equal. now apply IH.
Qed.

Lemma elem_of_keys_delete m k k' :
  k' ∈ JSMap.keys (JSMap.delete Nat.eqb k m) -> k' ∈ JSMap.keys m.
Proof.
  induction m as [|[k0 v0] m IH]; simpl; [tauto|].
  destruct (Nat.eqb_spec k0 k) as [->|Hne]; simpl; rewrite !elem_of_cons; tauto.
Qed.

Lemma NoDup_keys_set m k v :
  NoDup (JSMap.keys m) -> NoDup (JSMap.keys (JSMap.set Nat.eqb k v m)).
Proof.
  intros Hnd. destruct (decide (k ∈ JSMap.keys m)) as [Hin|Hnotin].
  - now rewrite keys_set_present.
  - rewrite keys_set_absent by assumption.
    apply list.NoDup_app; repeat split; [assumption | | apply NoDup_singleton].
    intros x Hx Hx'. apply list_elem_of_singleton in Hx'. congruence.
Qed.

Lemma NoDup_keys_delete m k :
  NoDup (JSMap.keys m) -> NoDup (JSMap.keys (JSMap.delete Nat.eqb k m)).
Proof.
  induction m as [|[k0 v0] m IH]; simpl; intros Hnd; [constructor|].
  apply list.NoDup_cons in Hnd as [Hnotin Hnd].
  destruct (Nat.eqb_spec k0 k) as [->|Hne]; [assumption|].
  simpl. apply list.NoDup_cons. split; [|now apply IH].
  intros Hin. apply Hnotin. eapply elem_of_keys_delete. eassumption.
Qed.

Lemma not_elem_of_keys_delete m k :
  NoDup (JSMap.keys m) -> k ∉ JSMap.keys (JSMap.delete Nat.eqb k m).
Proof.
  induction m as [|[k0 v0] m IH]; simpl; intros Hnd; [apply not_elem_of_nil|].
  apply list.NoDup_cons in Hnd as [Hnotin Hnd].
  destruct (Nat.eqb_spec k0 k) as [->|Hne]; [assumption|].
  simpl. apply not_elem_of_cons. split; [congruence | now apply IH].
Qed.
End MapFacts.

(** ** The host router *)

Lemma PlayerID_eqb_eq (a b : PlayerID) : PlayerID_eqb a b = true <-> a = b.
Proof.
  destruct a as [x|], b as [y|]; simpl; try (split; congruence).
  rewrite String.eqb_eq. split; congruence.
Qed.

Lemma returns_Normal store data c :
  P2PHost.returns store data c -> send (store c) data = Normal tt.
Proof.
  unfold P2PHost.returns. intros H.
  destruct (send (store c) data) as [[]|e]; [reflexivity|].
  now destruct (H e).
Qed.

Section Loops.
Variable store : ClientStore.
Variable data : Data.
Implicit Types (entries : list (ClientRef * ClientRef)) (c bad : ClientRef).

Lemma sendAll_loop_returns entries :
  (forall c, c ∈ JSMap.keys entries -> P2PHost.returns store data c) ->
  P2PHost.sendAll_loop store entries data = (JSMap.keys entries, Normal tt).
Proof.
  induction entries as [|[c v] entries IH]; simpl; intros Hok; [reflexivity|].
  rewrite (returns_Normal store data c) by (apply Hok; left).
  rewrite IH; [reflexivity|].
  intros c' Hc'. apply Hok. now right.
Qed.

Lemma sendAll_loop_throws before bad after e : forall entries,
  JSMap.keys entries = before ++ bad :: after ->
  (forall c, c ∈ before -> P2PHost.returns store data c) ->
  send (store bad) data = Throw e ->
  P2PHost.sendAll_loop store entries data = (before ++ [bad], Throw e).
Proof.
  induction before as [|b before IH]; intros [|[c v] entries] Hkeys Hok Hbad;
    try discriminate; simpl in *; injection Hkeys as -> Hkeys.
  - now rewrite Hbad.
  - rewrite (returns_Normal store data b) by (apply Hok; left).
    rewrite (IH entries Hkeys); [reflexivity | | assumption].
    intros c' Hc'. apply Hok. now right.
Qed.

Variable target : PlayerID.

Lemma send_loop_returns entries :
  (forall c, c ∈ List.filter (P2PHost.matches store target) (JSMap.keys entries) ->
             P2PHost.returns store data c) ->
  P2PHost.send_loop store entries target data
  = (List.filter (P2PHost.matches store target) (JSMap.keys entries), Normal tt).
Proof.
  induction entries as [|[c v] entries IH]; simpl; intros Hok; [reflexivity|].
  fold (P2PHost.matches store target c) in *.
  destruct (P2PHost.matches store target c); simpl.
  - rewrite (returns_Normal store data c) by (apply Hok; left).
    rewrite IH; [reflexivity|].
    intros c' Hc'. apply Hok. now right.
  - now apply IH.
Qed.

Lemma send_loop_throws before bad after e : forall entries,
  JSMap.keys entries = before ++ bad :: after ->
  (forall c, c ∈ List.filter (P2PHost.matches store target) before ->
             P2PHost.returns store data c) ->
  P2PHost.matches store target bad = true ->
  send (store bad) data = Throw e ->
  P2PHost.send_loop store entries target data
  = (List.filter (P2PHost.matches store target) before ++ [bad], Throw e).
Proof.
  induction before as [|b before IH]; intros [|[c v] entries] Hkeys Hok Hm Hbad;
    try discriminate; simpl in *; injection Hkeys as -> Hkeys.
  - fold (P2PHost.matches store target bad). now rewrite Hm, Hbad.
  - fold (P2PHost.matches store target b) in *.
    destruct (P2PHost.matches store target b); simpl.
    + rewrite (returns_Normal store data b) by (apply Hok; left).
      rewrite (IH entries Hkeys); [reflexivity | | assumption..].
      intros c' Hc'. apply Hok. now right.
    + now apply (IH entries).
Qed.

(** Whatever the sends do, a targeted fan-out only ever calls clients
    that are registered on the target seat. *)
Lemma send_loop_called entries c :
  c ∈ (P2PHost.send_loop store entries target data).1 ->
  c ∈ JSMap.keys entries /\ playerID (metadata (store c)) = target.
Proof.
  induction entries as [|[c0 v] entries IH]; simpl; [intros H; inversion H|].
  destruct (PlayerID_eqb (playerID (metadata (store c0))) target) eqn:Hm; simpl.
  - apply PlayerID_eqb_eq in Hm.
    destruct (send (store c0) data) as [[]|e]; simpl.
    + destruct (P2PHost.send_loop store entries target data) as [called r]; simpl in *.
      intros [->|Hin]%elem_of_cons; [split; [left | assumption]|].
      destruct (IH Hin). split; [now right | assumption].
    + intros ->%list_elem_of_singleton. split; [left | assumption].
  - intros Hin. destruct (IH Hin). split; [now right | assumption].
Qed.
End Loops.

Lemma elem_of_recipients store h target c :
  c ∈ P2PHost.recipients store h target
  <-> c ∈ P2PHost.registrations h /\ playerID (metadata (store c)) = target.
Proof.
  unfold P2PHost.recipients. rewrite !list_elem_of_In, filter_In.
  unfold P2PHost.matches. now rewrite PlayerID_eqb_eq.
Qed.

(** The router keeps the [Map] well formed. *)
Lemma wf_new game numPlayers matchID : P2PHost.wf (P2PHost.new game numPlayers matchID).
Proof. constructor. Qed.

Lemma wf_registerClient store c h :
  P2PHost.wf h -> P2PHost.wf (P2PHost.registerClient store c h).
Proof. apply NoDup_keys_set. Qed.

Lemma wf_unregisterClient store c h :
  P2PHost.wf h -> P2PHost.wf (P2PHost.unregisterClient store c h).
Proof. apply NoDup_keys_delete. Qed.

Lemma wf_processAction data h : P2PHost.wf h -> P2PHost.wf (P2PHost.processAction data h).
Proof.
  unfold P2PHost.processAction.
  repeat (destruct (String.eqb _ _)); trivial.
Qed.

Lemma wf_example s : P2PHost.wf (Example.host s).
Proof. repeat apply wf_registerClient. apply wf_new. Qed.

(** Registering clients that are new and distinct puts them in the map in
    the order of the calls. *)
Lemma registrations_register_all store (cs : list ClientRef) : forall h,
  NoDup cs -> (forall c, c ∈ cs -> c ∉ P2PHost.registrations h) ->
  P2PHost.registrations (Example.register_all store cs h) = P2PHost.registrations h ++ cs.
Proof.
  unfold Example.register_all.
  induction cs as [|c cs IH]; simpl; intros h Hnd Hnew; [now rewrite app_nil_r|].
  apply list.NoDup_cons in Hnd as [Hc Hnd].
  assert (Hkeys : P2PHost.registrations (P2PHost.registerClient store c h)
                  = P2PHost.registrations h ++ [c]).
  { unfold P2PHost.registrations. simpl. apply keys_set_absent. apply Hnew. left. }
  rewrite IH, Hkeys; [now rewrite <- app_assoc | assumption |].
  intros c' Hc'. rewrite Hkeys. intros [Hin|Hin]%elem_of_app.
  - apply (Hnew c'); [now right | assumption].
  - apply list_elem_of_singleton in Hin. congruence.
Qed.

Lemma count_occ_NoDup (l : list nat) (c : nat) :
  NoDup l -> c ∈ l -> count_occ Nat.eq_dec l c = 1%nat.
Proof.
  intros Hnd Hc. apply NoDup_ListNoDup in Hnd. apply list_elem_of_In in Hc.
  now apply (proj1 (NoDup_count_occ' Nat.eq_dec l)).
Qed.

Lemma count_occ_absent (l : list nat) (c : nat) :
  c ∉ l -> count_occ Nat.eq_dec l c = 0%nat.
Proof.
  intros Hc. apply count_occ_not_In. now rewrite <- list_elem_of_In.
Qed.

(** C1, as amended. A [send] that throws ends the fan-out and is not
    retried. Let the registrations be [before ++ bad :: after] in insertion
    order and the send of [bad] throw [e]. If the sends of [before] return,
    [sendAll] has called [before] and then [bad], each once, and nobody of
    [after], and throws [e]. If the sends of those of [before] that sit on
    the seat of [bad] return (the others are not called, whatever they would
    do), [send] to that seat has called them and then [bad], each once, and
    nobody of [after], and throws [e]. *)
Theorem fanout_stops_at_first_failure store h data before bad after e :
  P2PHost.wf h ->
  P2PHost.registrations h = before ++ bad :: after ->
  send (store bad) data = Throw e ->
  let seat := playerID (metadata (store bad)) in
  ((forall c, c ∈ before -> P2PHost.returns store data c) ->
     P2PHost.master_sendAll store h data = (before ++ [bad], Throw e)
     /\ (forall c, c ∈ before ++ [bad] ->
           count_occ Nat.eq_dec (P2PHost.master_sendAll store h data).1 c = 1%nat)
     /\ (forall c, c ∈ after -> c ∉ (P2PHost.master_sendAll store h data).1))
  /\ ((forall c, c ∈ before -> P2PHost.matches store seat c = true ->
                  P2PHost.returns store data c) ->
      P2PHost.master_send store h seat data
      = (List.filter (P2PHost.matches store seat) before ++ [bad], Throw e)
      /\ (forall c, c ∈ List.filter (P2PHost.matches store seat) before ++ [bad] ->
            count_occ Nat.eq_dec (P2PHost.master_send store h seat data).1 c = 1%nat)
      /\ (forall c, c ∈ after -> c ∉ (P2PHost.master_send store h seat data).1)).
Proof.
  intros Hwf Hregs Hbad seat.
  unfold P2PHost.wf in Hwf. rewrite Hregs in Hwf.
  apply list.NoDup_app in Hwf as (Hb & Hsep & Hba).
  apply list.NoDup_cons in Hba as [Hbad_after Hafter].
  assert (Hnd : NoDup (before ++ [bad])).
  { apply list.NoDup_app. split; [assumption|]. split; [|apply NoDup_singleton].
    intros x Hx Hx'. apply list_elem_of_singleton in Hx'. subst x.
    apply (Hsep bad Hx). left. }
  assert (Hsub : forall c, c ∈ List.filter (P2PHost.matches store seat) before -> c ∈ before).
  { intros c Hc. apply list_elem_of_In, filter_In in Hc as [Hc _].
    now apply list_elem_of_In. }
  assert (Hndf : NoDup (List.filter (P2PHost.matches store seat) before ++ [bad])).
  { apply list.NoDup_app. split; [|split; [|apply NoDup_singleton]].
    - apply NoDup_ListNoDup, List.NoDup_filter, NoDup_ListNoDup, Hb.
    - intros x Hx Hx'. apply list_elem_of_singleton in Hx'. subst x.
      apply (Hsep bad (Hsub bad Hx)). left. }
  split.
  - intros Hok.
    assert (HA : P2PHost.master_sendAll store h data = (before ++ [bad], Throw e)).
    { unfold P2PHost.master_sendAll. eapply sendAll_loop_throws; eassumption. }
    rewrite HA. simpl. split; [reflexivity|]. split.
    + intros c Hc. now apply count_occ_NoDup.
    + intros c Hc [Hc'|Hc']%elem_of_app.
      * apply (Hsep c Hc'). now right.
      * apply list_elem_of_singleton in Hc'. subst c. contradiction.
  - intros Hok.
    assert (HS : P2PHost.master_send store h seat data
                 = (List.filter (P2PHost.matches store seat) before ++ [bad], Throw e)).
    { unfold P2PHost.master_send. eapply send_loop_throws; try eassumption.
      - intros c Hc. apply Hok; [now apply Hsub|].
        apply list_elem_of_In, filter_In in Hc. tauto.
      - now apply PlayerID_eqb_eq. }
    rewrite HS. simpl. split; [reflexivity|]. split.
    + intros c Hc. now apply count_occ_NoDup.
    + intros c Hc [Hc'|Hc']%elem_of_app.
      * apply (Hsep c (Hsub c Hc')). now right.
      * apply list_elem_of_singleton in Hc'. subst c. contradiction.
Qed.

(** C3, as amended. Whatever the sends do, [send(playerID, payload)] calls no
    registration outside the target seat; when the sends of the target
    seat return, it calls exactly the registrations of that seat, each once
    and in insertion order, and returns; with nobody on the seat it calls
    nobody and returns. *)
Theorem send_reaches_exactly_the_target_seat store h target data :
  (forall c, c ∈ (P2PHost.master_send store h target data).1 ->
     c ∈ P2PHost.registrations h /\ playerID (metadata (store c)) = target)
  /\ ((forall c, c ∈ P2PHost.recipients store h target -> P2PHost.returns store data c) ->
      P2PHost.master_send store h target data
      = (P2PHost.recipients store h target, Normal tt)
      /\ (forall c, c ∈ (P2PHost.master_send store h target data).1
            <-> c ∈ P2PHost.registrations h /\ playerID (metadata (store c)) = target))
  /\ (P2PHost.recipients store h target = [] ->
      P2PHost.master_send store h target data = ([], Normal tt)).
Proof.
  split; [|split].
  - intros c. apply send_loop_called.
  - intros Hok.
    assert (HS : P2PHost.master_send store h target data
                 = (P2PHost.recipients store h target, Normal tt))
      by now apply send_loop_returns.
    split; [assumption|].
    intros c. rewrite HS. apply elem_of_recipients.
  - intros Hnone. unfold P2PHost.master_send.
    rewrite send_loop_returns; fold (P2PHost.registrations h);
      fold (P2PHost.recipients store h target); rewrite Hnone; [reflexivity|].
    intros c Hc. inversion Hc.
Qed.

(** C4, as amended. On a well-formed registration map whose sends return,
    [sendAll(payload)] calls the registrations in insertion order and
    returns: every registration is called exactly once and nobody else is
    called; and a host holding the same registrations inserted in another
    order calls the same clients as often. *)
Theorem sendAll_reaches_every_registration_once store h data :
  P2PHost.wf h ->
  (forall c, c ∈ P2PHost.registrations h -> P2PHost.returns store data c) ->
  P2PHost.master_sendAll store h data = (P2PHost.registrations h, Normal tt)
  /\ (forall c, c ∈ P2PHost.registrations h ->
        count_occ Nat.eq_dec (P2PHost.master_sendAll store h data).1 c = 1%nat)
  /\ (forall c, c ∉ P2PHost.registrations h ->
        count_occ Nat.eq_dec (P2PHost.master_sendAll store h data).1 c = 0%nat)
  /\ (forall h', P2PHost.registrations h' ≡ₚ P2PHost.registrations h ->
        (P2PHost.master_sendAll store h' data).2 = Normal tt
        /\ (P2PHost.master_sendAll store h' data).1
           ≡ₚ (P2PHost.master_sendAll store h data).1).
Proof.
  intros Hwf Hok.
  assert (HA : P2PHost.master_sendAll store h data = (P2PHost.registrations h, Normal tt))
    by now apply sendAll_loop_returns.
  rewrite HA. simpl.
  split; [reflexivity|]. split; [|split].
  - intros c Hc. now apply count_occ_NoDup.
  - intros c Hc. now apply count_occ_absent.
  - intros h' Hperm.
    assert (HA' : P2PHost.master_sendAll store h' data
                  = (P2PHost.registrations h', Normal tt)).
    { apply sendAll_loop_returns. intros c Hc. apply Hok.
      fold (P2PHost.registrations h') in Hc. now rewrite <- Hperm. }
    rewrite HA'. split; [reflexivity | exact Hperm].
Qed.

(** C8. [processAction] calls [onUpdate] for the tag "update",
    [onChatMessage] for "chat" and [onSync] for "sync", once and with the
    arguments the action carries; for any other tag it calls nothing and
    leaves the host as it is. It never touches the registrations. *)
Theorem processAction_dispatches_on_tag data h :
  let h' := P2PHost.processAction data h in
  P2PHost.clients h' = P2PHost.clients h
  /\ (type data = "update" ->
      received (P2PHost.master h')
      = received (P2PHost.master h) ++ [{| method := onUpdate; arguments := args data |}])
  /\ (type data = "chat" ->
      received (P2PHost.master h')
      = received (P2PHost.master h) ++ [{| method := onChatMessage; arguments := args data |}])
  /\ (type data = "sync" ->
      received (P2PHost.master h')
      = received (P2PHost.master h) ++ [{| method := onSync; arguments := args data |}])
  /\ (type data <> "update" -> type data <> "chat" -> type data <> "sync" -> h' = h).
Proof.
  unfold P2PHost.processAction. simpl.
  destruct (String.eqb_spec (type data) "update") as [Hu|Hu];
    [|destruct (String.eqb_spec (type data) "chat") as [Hc|Hc];
      [|destruct (String.eqb_spec (type data) "sync") as [Hs|Hs]]];
    simpl; repeat split; trivial; intros; try reflexivity; try congruence.
Qed.

(** C10. On a well-formed registration map, [unregisterClient(c)] for a
    client that is not registered leaves the map as it is and still tells
    the master that the seat of [c] disconnected; [registerClient(c)]
    called twice leaves one entry for [c] (the map after the first call) and
    tells the master twice that the seat connected. *)
Theorem unregister_absent_and_register_twice store h c :
  P2PHost.wf h ->
  let seat := playerID (metadata (store c)) in
  (c ∉ P2PHost.registrations h ->
     P2PHost.clients (P2PHost.unregisterClient store c h) = P2PHost.clients h
     /\ received (P2PHost.master (P2PHost.unregisterClient store c h))
        = received (P2PHost.master h)
          ++ [{| method := onConnectionChange;
                 arguments := [JSString (P2PHost.matchID h); PlayerID_value seat;
                               JSUndefined; JSBool false] |}])
  /\ (let h1 := P2PHost.registerClient store c h in
      let h2 := P2PHost.registerClient store c h1 in
      P2PHost.registrations h2 = P2PHost.registrations h1
      /\ count_occ Nat.eq_dec (P2PHost.registrations h2) c = 1%nat
      /\ received (P2PHost.master h2)
         = received (P2PHost.master h)
           ++ [{| method := onConnectionChange;
                  arguments := [JSString (P2PHost.matchID h); PlayerID_value seat;
                                JSUndefined; JSBool true] |};
               {| method := onConnectionChange;
                  arguments := [JSString (P2PHost.matchID h); PlayerID_value seat;
                                JSUndefined; JSBool true] |}]).
Proof.
  intros Hwf seat. split.
  - intros Hc. simpl. split; [|reflexivity].
    now apply delete_absent.
  - simpl.
    assert (Hin : c ∈ P2PHost.registrations (P2PHost.registerClient store c h)).
    { unfold P2PHost.registrations. simpl.
      destruct (decide (c ∈ JSMap.keys (P2PHost.clients h))) as [Hc|Hc].
      - now rewrite keys_set_present.
      - rewrite keys_set_absent by assumption. apply elem_of_app. right. left. }
    assert (Hkeys : P2PHost.registrations
                      (P2PHost.registerClient store c (P2PHost.registerClient store c h))
                    = P2PHost.registrations (P2PHost.registerClient store c h)).
    { unfold P2PHost.registrations at 1. simpl. now apply keys_set_present. }
    split; [exact Hkeys|]. split.
    + rewrite Hkeys. apply count_occ_NoDup; [|assumption].
      now apply wf_registerClient.
    + unfold P2PHost.connectionChange. simpl. now rewrite <- app_assoc.
Qed.

(** *** The router on the example hosts *)

Lemma example_registrations s : P2PHost.registrations (Example.host s) = [0; 1; 2]%nat.
Proof. reflexivity. Qed.

Lemma example_returns c : P2PHost.returns Example.seated Example.payload c.
Proof. intros e. discriminate. Qed.

(** C1, refuted as stated: the connection of client 0 is broken, clients 1
    and 2 are registered after it; [sendAll] never calls them, and [send] to
    seat "0" never calls client 2. *)
Lemma failing_send_aborts_fanout :
  ~ P2PHost.sendAll_isolates_failure Example.broken (Example.host Example.broken)
  /\ ~ P2PHost.send_isolates_failure Example.broken (Example.host Example.broken).
Proof.
  split; intros Hclaim.
  - specialize (Hclaim Example.payload 0%nat (JSString "Connection is not open")).
    assert (H1 : 1%nat ∈ (P2PHost.master_sendAll Example.broken
                            (Example.host Example.broken) Example.payload).1).
    { apply Hclaim; [| reflexivity | | discriminate];
        rewrite example_registrations, list_elem_of_In; simpl; tauto. }
    apply list_elem_of_In in H1. simpl in H1. intuition discriminate.
  - specialize (Hclaim (Some "0") Example.payload 0%nat (JSString "Connection is not open")).
    assert (H2 : 2%nat ∈ (P2PHost.master_send Example.broken
                            (Example.host Example.broken) (Some "0") Example.payload).1).
    { apply Hclaim; [| reflexivity | | discriminate].
      - rewrite example_registrations, list_elem_of_In; simpl; tauto.
      - apply elem_of_recipients. split; [|reflexivity].
        rewrite example_registrations, list_elem_of_In; simpl; tauto. }
    apply list_elem_of_In in H2. simpl in H2. intuition discriminate.
Qed.

Lemma fanout_stops_at_first_failure_witness :
  P2PHost.master_sendAll Example.flaky (Example.host Example.flaky) Example.payload
  = ([0; 1]%nat, Throw (JSString "Connection is not open"))
  /\ P2PHost.master_send Example.flaky (Example.host Example.flaky) (Some "0")
       Example.payload
     = ([0; 2]%nat, Throw (JSString "Connection is not open")).
Proof.
  split.
  - apply (fanout_stops_at_first_failure Example.flaky (Example.host Example.flaky)
             Example.payload [0%nat] 1%nat [2%nat] (JSString "Connection is not open")
             (wf_example Example.flaky) eq_refl eq_refl).
    intros c Hc. apply list_elem_of_singleton in Hc. subst c. intros e. discriminate.
  - apply (fanout_stops_at_first_failure Example.flaky (Example.host Example.flaky)
             Example.payload [0; 1]%nat 2%nat [] (JSString "Connection is not open")
             (wf_example Example.flaky) eq_refl eq_refl).
    intros c Hc Hseat. apply list_elem_of_In in Hc. simpl in Hc.
    destruct Hc as [<-|[<-|[]]]; [intros e; discriminate | discriminate].
Defined.

(** C3, refuted as stated: clients 0 and 2 sit on seat "0" and the
    connection of client 0 is broken; [send] to seat "0" never calls
    client 2. *)
Lemma send_misses_a_recipient_behind_a_failure :
  ~ P2PHost.send_delivers_exactly_to_seat Example.broken (Example.host Example.broken).
Proof.
  intros Hclaim.
  destruct (Hclaim (Some "0") Example.payload) as [Hiff _].
  assert (H2 : 2%nat ∈ (P2PHost.master_send Example.broken (Example.host Example.broken)
                          (Some "0") Example.payload).1).
  { apply Hiff, elem_of_recipients. split; [|reflexivity].
    rewrite example_registrations, list_elem_of_In. simpl. tauto. }
  apply list_elem_of_In in H2. simpl in H2. intuition discriminate.
Qed.

(** C4, refuted as stated: with the connection of client 0 broken,
    [sendAll] never calls client 1, which is registered. *)
Lemma sendAll_misses_registrations_behind_a_failure :
  ~ P2PHost.sendAll_delivers_once_to_all Example.broken (Example.host Example.broken).
Proof.
  intros Hclaim.
  assert (H1 : count_occ Nat.eq_dec
                 (P2PHost.master_sendAll Example.broken (Example.host Example.broken)
                    Example.payload).1 1%nat = 1%nat).
  { apply Hclaim. rewrite example_registrations, list_elem_of_In. simpl. tauto. }
  discriminate H1.
Qed.

Lemma send_reaches_exactly_the_target_seat_witness :
  P2PHost.master_send Example.seated (Example.host Example.seated) (Some "0") Example.payload
  = ([0; 2]%nat, Normal tt)
  /\ P2PHost.master_send Example.seated (Example.host Example.seated) (Some "7") Example.payload
     = ([], Normal tt).
Proof.
  split.
  - apply (proj1 (proj2 (send_reaches_exactly_the_target_seat Example.seated
                           (Example.host Example.seated) (Some "0") Example.payload))).
    intros c _. apply example_returns.
  - apply (proj2 (proj2 (send_reaches_exactly_the_target_seat Example.seated
                           (Example.host Example.seated) (Some "7") Example.payload))).
    reflexivity.
Defined.

Lemma sendAll_reaches_every_registration_once_witness :
  P2PHost.master_sendAll Example.seated (Example.host Example.seated) Example.payload
  = ([0; 1; 2]%nat, Normal tt)
  /\ (P2PHost.master_sendAll Example.seated
        (Example.register_all Example.seated [2; 0; 1]%nat (P2PHost.new 0%nat None "M1"))
        Example.payload).1
     ≡ₚ [0; 1; 2]%nat.
Proof.
  pose proof (sendAll_reaches_every_registration_once Example.seated
                (Example.host Example.seated) Example.payload (wf_example Example.seated)
                (fun c _ => example_returns c))
    as (HA & _ & _ & Horder).
  split; [exact HA|].
  apply (Horder (Example.register_all Example.seated [2; 0; 1]%nat
                   (P2PHost.new 0%nat None "M1"))).
  change ([2; 0; 1]%nat ≡ₚ [0; 1; 2]%nat).
  etransitivity; [apply perm_swap|]. apply perm_skip, perm_swap.
Defined.

Lemma processAction_dispatches_on_tag_witness :
  received (P2PHost.master
              (P2PHost.processAction {| type := "chat"; args := [JSString "M1"; JSObject 3] |}
                 (P2PHost.new 0%nat None "M1")))
  = [{| method := onChatMessage; arguments := [JSString "M1"; JSObject 3] |}]
  /\ P2PHost.processAction {| type := "ping"; args := [] |} (P2PHost.new 0%nat None "M1")
     = P2PHost.new 0%nat None "M1".
Proof.
  split.
  - apply (processAction_dispatches_on_tag
             {| type := "chat"; args := [JSString "M1"; JSObject 3] |}
             (P2PHost.new 0%nat None "M1")).
    reflexivity.
  - apply (processAction_dispatches_on_tag {| type := "ping"; args := [] |}
             (P2PHost.new 0%nat None "M1")); discriminate.
Defined.

Lemma unregister_absent_and_register_twice_witness :
  P2PHost.clients (P2PHost.unregisterClient Example.seated 5%nat (Example.host Example.seated))
  = P2PHost.clients (Example.host Example.seated)
  /\ P2PHost.registrations
       (P2PHost.registerClient Example.seated 5%nat
          (P2PHost.registerClient Example.seated 5%nat (Example.host Example.seated)))
     = [0; 1; 2; 5]%nat.
Proof.
  pose proof (unregister_absent_and_register_twice Example.seated
                (Example.host Example.seated) 5%nat (wf_example Example.seated))
    as [Hun Hreg].
  split.
  - apply Hun. rewrite example_registrations, list_elem_of_In. simpl. lia.
  - apply Hreg.
Defined.

(** ** The transport *)

Lemma alter_snoc {A} (f : A -> A) (l : list A) (x : A) :
  alter f (length l) (l ++ [x]) = l ++ [f x].
Proof.
  rewrite <- (Nat.add_0_r (length l)). now rewrite alter_app_r.
Qed.

Lemma lookup_snoc {A} (l : list A) (x : A) : (l ++ [x]) !! length l = Some x.
Proof. now apply list_lookup_middle. Qed.

Section TransportFacts.
Import P2PTransport.
Implicit Types (self stored : t) (w : World) (st : State).

(** [connect()] on a client: a peer without a name, waiting to open. *)
Lemma connect_client self w :
  isHost self = false ->
  connect (self, w)
  = (with_base (Transport.setConnectionStatus true) (set_peer (Obj (length (peers w))) self),
     set_peers
       (peers w ++ [{| peer_id := None; peer_options := peerJSOptions self;
                       on_connection := None;
                       on_open := Some {| open_hostID := namespacedPeerID self;
                                          open_metadata :=
                                            {| playerID := Transport.playerID (base self) |} |};
                       destroyed := false |}]) w).
Proof.
  destruct self as [b pr opts ih g em]. simpl. intros ->.
  unfold connect. simpl. rewrite alter_snoc. reflexivity.
Qed.

(** [connect()] on a host: a named peer, a new router with the loopback
    client, and the [Sync] already processed by the router. *)
Lemma connect_host self w :
  isHost self = true ->
  let h : HostRef := length (hosts w) in
  let w1 := new_client {| send := Transport.clientCallback (base self);
                          metadata := {| playerID := Transport.playerID (base self) |} |} w in
  connect (self, w)
  = (with_base (Transport.setConnectionStatus true)
       (set_emit (EmitToHost h) (set_peer (Obj (length (peers w))) self)),
     set_peers
       (peers w ++ [{| peer_id := namespacedPeerID self; peer_options := peerJSOptions self;
                       on_connection := Some h; on_open := None; destroyed := false |}])
       (set_hosts
          (hosts w ++ [P2PHost.processAction (syncAction self)
                         (P2PHost.registerClient (store w1) (allocated w)
                            (P2PHost.new (game self)
                               (Some (Transport.numPlayers (base self)))
                               (Transport.matchID (base self))))])
          w1)).
Proof.
  destruct self as [b pr opts ih g em]. simpl. intros ->.
  unfold connect. simpl. rewrite !alter_snoc. reflexivity.
Qed.

(** [disconnect()] only touches the peer table, and there only the peer
    the transport held. *)
Lemma disconnect_peers self w :
  exists ps,
    disconnect (self, w)
    = (with_base (Transport.setConnectionStatus false) (set_peer Null self), set_peers ps w)
    /\ length ps = length (peers w)
    /\ (forall old, peer self = Obj old -> ps !! old = destroy <$> peers w !! old).
Proof.
  unfold disconnect. destruct (peer self) as [| |p] eqn:Hp.
  - exists (peers w). destruct w. repeat split; intros; discriminate.
  - exists (peers w). destruct w. repeat split; intros; discriminate.
  - exists (alter destroy p (peers w)). repeat split.
    + apply length_alter.
    + intros old [= <-]. apply list_lookup_alter_eq.
Qed.

(** [disconnect()] leaves [this.emit] as it is. *)
Lemma disconnect_keeps_emit st : emit (disconnect st).1 = emit st.1.
Proof. destruct st as [self w]. reflexivity. Qed.
End TransportFacts.

Section Reconnection.
Import P2PTransport.
Implicit Types (self stored : t) (w : World) (st : State).

Lemma truthy_nonempty (s : string) : s <> "" -> truthy s = true.
Proof. destruct s; [congruence | reflexivity]. Qed.

Lemma namespacedPeerID_nonempty self :
  Transport.matchID (base self) <> "" ->
  namespacedPeerID self
  = Some ("boardgameio-" +:+ Transport.gameName (base self) +:+ "-matchid-"
            +:+ Transport.matchID (base self)).
Proof.
  intros Hid. unfold namespacedPeerID. now rewrite truthy_nonempty.
Qed.

(** A client that has connected, whose peer then opens and whose
    connection to the host then opens. *)
Lemma client_dials_then_syncs self w :
  isHost self = false ->
  let p : PeerRef := length (peers w) in
  let c : ConnRef := length (connections w) in
  let dialled sent :=
    connections w ++ [{| conn_peer := p; conn_target := namespacedPeerID self;
                         conn_metadata := {| playerID := Transport.playerID (base self) |};
                         conn_on_open := true; conn_on_data := true;
                         conn_sent := sent |}] in
  let st2 := run [PeerOpen p] (connect (self, w)) in
  let st3 := run [PeerOpen p; ConnectionOpen c] (connect (self, w)) in
  (base st2.1 = Transport.setConnectionStatus true (base self)
   /\ peer st2.1 = Obj p
   /\ emit st2.1 = Some (EmitToConnection c)
   /\ hosts st2.2 = hosts w
   /\ connections st2.2 = dialled [])
  /\ (base st3.1 = Transport.setConnectionStatus true (base self)
      /\ emit st3.1 = Some (EmitToConnection c)
      /\ hosts st3.2 = hosts w
      /\ connections st3.2 = dialled [syncAction self]).
Proof.
  intros Hrole. rewrite connect_client by assumption.
  destruct self as [[gn mid pid cr np ic cb] pr opts ih g em],
    w as [hs sto al pes cs acc].
  unfold namespacedPeerID, syncAction. simpl in *.
  rewrite !lookup_snoc. simpl. rewrite !lookup_snoc. simpl.
  rewrite !alter_snoc. unfold syncAction. simpl.
  repeat split; reflexivity.
Qed.

(** [disconnect()] then [connect()], on either role. *)
Lemma resetAndReconnect_reconnected stored w :
  reconnected stored w (resetAndReconnect (stored, w)).
Proof.
  unfold resetAndReconnect.
  destruct (disconnect_peers stored w) as (ps & -> & Hlen & Hold).
  destruct (isHost stored) eqn:Hrole.
  - rewrite connect_host by (destruct stored; exact Hrole).
    unfold reconnected. rewrite Hrole, <- Hlen.
    destruct stored as [[gn mid pid cr np ic cb] pr opts ih g em],
      w as [hs sto al pes cs acc].
    unfold namespacedPeerID, syncAction. simpl in *.
    rewrite lookup_snoc, Nat.eqb_refl. simpl.
    repeat split; trivial.
    + intros old Hpr Hlt. rewrite lookup_app_l by assumption. now apply Hold.
    + eexists. split; [reflexivity|].
      unfold P2PHost.processAction, P2PHost.registerClient.
      simpl. rewrite Nat.eqb_refl. repeat split; reflexivity.
  - rewrite connect_client by (destruct stored; exact Hrole).
    unfold reconnected. rewrite Hrole, <- Hlen.
    destruct stored as [[gn mid pid cr np ic cb] pr opts ih g em],
      w as [hs sto al pes cs acc].
    unfold namespacedPeerID, syncAction. simpl in *.
    rewrite !lookup_snoc. simpl. rewrite !lookup_snoc. simpl.
    rewrite !alter_snoc. unfold syncAction. simpl.
    repeat split; trivial.
    intros old Hpr Hlt. rewrite lookup_app_l by assumption. now apply Hold.
Qed.
End Reconnection.

(** C2, refuted as stated: a client that has just called [connect()], with
    no event fired yet, already has the status Connected. *)
Lemma client_connected_without_dial :
  ~ P2PTransport.connected_only_after_dial Example.client.
Proof.
  intros Hclaim. destruct (Hclaim [] eq_refl) as [c Hc]. inversion Hc.
Qed.

(** C2, as amended. On a client, [connect()] returns with the status
    Connected although nothing was dialled and nothing was issued. The dial
    to the endpoint name happens when the peer opens, which installs the
    emit-path and issues nothing; the [Sync] is sent on that connection
    when it opens. The status stays Connected throughout. *)
Theorem client_is_connected_before_it_dials (self : P2PTransport.t) (w : World) :
  P2PTransport.isHost self = false ->
  let p : PeerRef := length (peers w) in
  let c : ConnRef := length (connections w) in
  let dialled sent :=
    connections w
    ++ [{| conn_peer := p; conn_target := P2PTransport.namespacedPeerID self;
           conn_metadata := {| playerID := Transport.playerID (P2PTransport.base self) |};
           conn_on_open := true; conn_on_data := true; conn_sent := sent |}] in
  let st1 := P2PTransport.connect (self, w) in
  let st2 := P2PTransport.run [P2PTransport.PeerOpen p] st1 in
  let st3 := P2PTransport.run [P2PTransport.PeerOpen p; P2PTransport.ConnectionOpen c] st1 in
  (Transport.isConnected (P2PTransport.base st1.1) = true
   /\ P2PTransport.emit st1.1 = P2PTransport.emit self
   /\ hosts st1.2 = hosts w
   /\ connections st1.2 = connections w)
  /\ (Transport.isConnected (P2PTransport.base st2.1) = true
      /\ P2PTransport.emit st2.1 = Some (EmitToConnection c)
      /\ hosts st2.2 = hosts w
      /\ connections st2.2 = dialled [])
  /\ (Transport.isConnected (P2PTransport.base st3.1) = true
      /\ hosts st3.2 = hosts w
      /\ connections st3.2 = dialled [P2PTransport.syncAction self]).
Proof.
  intros Hrole p c dialled st1 st2 st3.
  destruct (client_dials_then_syncs self w Hrole)
    as ((Hb2 & _ & He2 & Hh2 & Hc2) & (Hb3 & _ & Hh3 & Hc3)).
  fold p c st1 st2 st3 in Hb2, He2, Hh2, Hc2, Hb3, Hh3, Hc3.
  split; [|split].
  - subst st1. rewrite connect_client by assumption.
    destruct self, w. repeat split; reflexivity.
  - rewrite Hb2. repeat split; assumption.
  - rewrite Hb3. repeat split; assumption.
Qed.

Lemma client_is_connected_before_it_dials_witness :
  Transport.isConnected (P2PTransport.base (P2PTransport.connect Example.client).1) = true
  /\ connections (P2PTransport.connect Example.client).2 = []
  /\ connections Example.synced_client.2
     = [{| conn_peer := 0%nat;
           conn_target := Some "boardgameio-tic-tac-toe-matchid-M1";
           conn_metadata := {| playerID := Some "0" |};
           conn_on_open := true; conn_on_data := true;
           conn_sent := [{| type := "sync";
                            args := [JSString "M1"; JSString "0"; JSString "secret";
                                     JSNumber 2] |}] |}].
Proof.
  pose proof (client_is_connected_before_it_dials
                (P2PTransport.new false 0%nat 0%nat Example.base) Example.world eq_refl)
    as ((H1 & _ & _ & H1c) & _ & (_ & _ & H3)).
  split; [exact H1 | split; [exact H1c | exact H3]].
Defined.

(** C5. With no emit-path installed, [requestSync], [sendAction] and
    [sendChatMessage] return and leave the transport and everything it
    reaches as they were: nothing is sent, nothing is processed by a host,
    nothing is kept for later. *)
Theorem actions_without_emit_are_dropped (self : P2PTransport.t) (w : World)
    (stateID action chatMessage : JSValue) (matchID : string) :
  P2PTransport.emit self = None ->
  P2PTransport.requestSync (self, w) = (self, w)
  /\ P2PTransport.sendAction stateID action (self, w) = (self, w)
  /\ P2PTransport.sendChatMessage matchID chatMessage (self, w) = (self, w).
Proof.
  intros Hemit.
  unfold P2PTransport.requestSync, P2PTransport.sendAction, P2PTransport.sendChatMessage.
  rewrite Hemit. repeat split; reflexivity.
Qed.

(** A client that called [connect()] and whose peer has not opened yet. *)
Lemma actions_without_emit_are_dropped_witness :
  P2PTransport.emit (P2PTransport.connect Example.client).1 = None
  /\ P2PTransport.sendAction (JSNumber 4) (JSObject 1) (P2PTransport.connect Example.client)
     = P2PTransport.connect Example.client.
Proof.
  split; [reflexivity|].
  apply (actions_without_emit_are_dropped (P2PTransport.connect Example.client).1
           (P2PTransport.connect Example.client).2 (JSNumber 4) (JSObject 1)
           JSNull "M1").
  reflexivity.
Defined.

(** C6. For a match ID that is not empty, [namespacedPeerID] is
    [boardgameio-<gameName>-matchid-<matchID>]; a host creates its peer
    under this name, and a client dials this name when its peer opens. *)
Theorem endpoint_name_is_shared (self : P2PTransport.t) (w : World) :
  Transport.matchID (P2PTransport.base self) <> "" ->
  let name := "boardgameio-" +:+ Transport.gameName (P2PTransport.base self)
              +:+ "-matchid-" +:+ Transport.matchID (P2PTransport.base self) in
  let p : PeerRef := length (peers w) in
  let c : ConnRef := length (connections w) in
  P2PTransport.namespacedPeerID self = Some name
  /\ (P2PTransport.isHost self = true ->
      let st := P2PTransport.connect (self, w) in
      P2PTransport.peer st.1 = Obj p
      /\ peer_id <$> peers st.2 !! p = Some (Some name))
  /\ (P2PTransport.isHost self = false ->
      let st := P2PTransport.run [P2PTransport.PeerOpen p] (P2PTransport.connect (self, w)) in
      P2PTransport.peer st.1 = Obj p
      /\ P2PTransport.emit st.1 = Some (EmitToConnection c)
      /\ conn_target <$> connections st.2 !! c = Some (Some name)).
Proof.
  intros Hid name p c.
  pose proof (namespacedPeerID_nonempty self Hid) as Hname. fold name in Hname.
  split; [exact Hname|]. split; intros Hrole.
  - subst p. rewrite connect_host by assumption. simpl.
    split; [now destruct self|].
    destruct w. simpl. rewrite lookup_snoc. simpl. now rewrite Hname.
  - subst p c.
    destruct (client_dials_then_syncs self w Hrole) as ((_ & Hp & He & _ & Hc) & _).
    cbv zeta. split; [exact Hp|]. split; [exact He|].
    rewrite Hc, lookup_snoc. simpl. now rewrite Hname.
Qed.

Lemma endpoint_name_is_shared_witness :
  peer_id <$> peers (P2PTransport.connect Example.hosting).2 !! 0%nat
  = Some (Some "boardgameio-tic-tac-toe-matchid-M1")
  /\ conn_target
       <$> connections (P2PTransport.run [P2PTransport.PeerOpen 0%nat]
                          (P2PTransport.connect Example.client)).2 !! 0%nat
     = Some (Some "boardgameio-tic-tac-toe-matchid-M1").
Proof.
  split.
  - apply (endpoint_name_is_shared (P2PTransport.new true 0%nat 0%nat Example.base)
             Example.world); [discriminate | reflexivity].
  - apply (endpoint_name_is_shared (P2PTransport.new false 0%nat 0%nat Example.base)
             Example.world); [discriminate | reflexivity].
Defined.



(** C9. A second [disconnect()] changes nothing: the transport and all it
    reaches are as after the first, with the peer handle [null] and the
    status not Connected; [destroy()] is not called again. *)
Theorem disconnect_is_idempotent (st : P2PTransport.State) :
  P2PTransport.disconnect (P2PTransport.disconnect st) = P2PTransport.disconnect st
  /\ P2PTransport.peer (P2PTransport.disconnect st).1 = Null
  /\ Transport.isConnected (P2PTransport.base (P2PTransport.disconnect st).1) = false.
Proof.
  destruct st as [[b pr opts ih g em] w].
  unfold P2PTransport.disconnect. simpl.
  split; [|split]; reflexivity.
Qed.

(** * Further properties of the router *)

Section MoreMapFacts.
Context {V : Type}.
Implicit Types (m : JSMap.t (K := nat) (V := V)) (k : nat) (v : V).

Lemma elem_of_keys_set m k k' v :
  k' ∈ JSMap.keys (JSMap.set Nat.eqb k v m) <-> k' = k \/ k' ∈ JSMap.keys m.
Proof.
  destruct (decide (k ∈ JSMap.keys m)) as [Hin|Hnotin].
  - rewrite keys_set_present by assumption. split; [tauto|].
    intros [->|H]; assumption.
  - rewrite keys_set_absent by assumption.
    rewrite elem_of_app, list_elem_of_singleton. tauto.
Qed.

Lemma elem_of_keys_delete_iff m k k' :
  NoDup (JSMap.keys m) ->
  k' ∈ JSMap.keys (JSMap.delete Nat.eqb k m) <-> k' <> k /\ k' ∈ JSMap.keys m.
Proof.
  induction m as [|[k0 v0] m IH]; simpl; intros Hnd.
  - split; [intros H; inversion H | intros [_ H]; inversion H].
  - apply list.NoDup_cons in Hnd as [Hnotin Hnd].
    destruct (Nat.eqb_spec k0 k) as [->|Hne]; simpl; rewrite !elem_of_cons.
    + split; [|tauto]. intros Hin. split; [congruence | tauto].
    + rewrite (IH Hnd). split; [|tauto].
      intros [->|[? ?]]; [split; [assumption | now left] | tauto].
Qed.

Lemma delete_set_absent m k v :
  k ∉ JSMap.keys m -> JSMap.delete Nat.eqb k (JSMap.set Nat.eqb k v m) = m.
Proof.
  induction m as [|[k0 v0] m IH]; simpl; intros Hk.
  - now rewrite Nat.eqb_refl.
  - apply not_elem_of_cons in Hk as [Hne Hk].
    destruct (Nat.eqb_spec k0 k) as [->|Hne']; [congruence|].
    simpl. destruct (Nat.eqb_spec k0 k) as [->|_]; [congruence|].
    f_equal. now apply IH.
Qed.
End MoreMapFacts.

Lemma sendAll_loop_called store data entries c :
  c ∈ (P2PHost.sendAll_loop store entries data).1 -> c ∈ JSMap.keys entries.
Proof.
  induction entries as [|[c0 v] entries IH]; simpl; [intros H; inversion H|].
  destruct (send (store c0) data) as [[]|e]; simpl.
  - destruct (P2PHost.sendAll_loop store entries data) as [called r]; simpl in *.
    rewrite !elem_of_cons. intros [->|Hin]; [now left | right; now apply IH].
  - rewrite list_elem_of_singleton. intros ->. left.
Qed.

Section Steps.
Variable store : ClientStore.
Implicit Types (h : P2PHost.t) (op : P2PHost.Op) (ops : list P2PHost.Op) (c : ClientRef).

Lemma wf_step h op : P2PHost.wf h -> P2PHost.wf (P2PHost.step store h op).
Proof.
  destruct op; simpl;
    [apply wf_registerClient | apply wf_unregisterClient | apply wf_processAction].
Qed.

Lemma processAction_calls data h :
  P2PHost.processAction data h
  = P2PHost.with_master
      (fun m => {| master_game := master_game m; master_db := master_db m;
                   received := received m
                               ++ P2PHost.calls_of store (P2PHost.matchID h)
                                    (P2PHost.Process data) |}) h.
Proof.
  unfold P2PHost.processAction, P2PHost.calls_of, P2PHost.method_of_tag.
  destruct h as [cl mid [mg db rc]].
  repeat (destruct (String.eqb _ _)); unfold P2PHost.with_master; simpl;
    rewrite ?app_nil_r; reflexivity.
Qed.

Lemma step_fixed_parts h op :
  P2PHost.matchID (P2PHost.step store h op) = P2PHost.matchID h
  /\ master_game (P2PHost.master (P2PHost.step store h op)) = master_game (P2PHost.master h)
  /\ master_db (P2PHost.master (P2PHost.step store h op)) = master_db (P2PHost.master h)
  /\ received (P2PHost.master (P2PHost.step store h op))
     = received (P2PHost.master h) ++ P2PHost.calls_of store (P2PHost.matchID h) op.
Proof.
  destruct op as [c|c|data]; simpl; [repeat split.. |].
  rewrite processAction_calls. repeat split.
Qed.

Lemma step_registered h op c (b : bool) :
  P2PHost.wf h ->
  (c ∈ P2PHost.registrations h <-> b = true) ->
  c ∈ P2PHost.registrations (P2PHost.step store h op)
  <-> P2PHost.live_after [op] c b = true.
Proof.
  intros Hwf Hb. destruct op as [c'|c'|data]; simpl.
  - unfold P2PHost.registrations. simpl. rewrite elem_of_keys_set.
    fold (P2PHost.registrations h). rewrite Hb.
    destruct (Nat.eqb_spec c' c) as [->|Hne]; [tauto|].
    split; [intros [->|H]; [congruence | assumption] | tauto].
  - unfold P2PHost.registrations. simpl. rewrite elem_of_keys_delete_iff by exact Hwf.
    fold (P2PHost.registrations h). rewrite Hb.
    destruct (Nat.eqb_spec c' c) as [->|Hne]; [split; [tauto | discriminate]|].
    split; [tauto | intros H; split; [congruence | assumption]].
  - rewrite <- Hb. unfold P2PHost.processAction.
    repeat (destruct (String.eqb _ _)); reflexivity.
Qed.
End Steps.

Lemma wf_steps store ops : forall h,
  P2PHost.wf h -> P2PHost.wf (P2PHost.steps store ops h).
Proof.
  unfold P2PHost.steps.
  induction ops as [|op ops' IH]; simpl; intros h Hwf; [assumption|].
  apply IH. now apply wf_step.
Qed.

Lemma steps_registered store ops c : forall h (b : bool),
  P2PHost.wf h ->
  (c ∈ P2PHost.registrations h <-> b = true) ->
  c ∈ P2PHost.registrations (P2PHost.steps store ops h)
  <-> P2PHost.live_after ops c b = true.
Proof.
  unfold P2PHost.steps, P2PHost.live_after.
  induction ops as [|op ops' IH]; intros h b Hwf Hb; [exact Hb|].
  simpl. apply IH; [now apply wf_step|].
  apply (step_registered store h op c b Hwf Hb).
Qed.

Lemma new_has_no_registration game numPlayers matchID c :
  c ∈ P2PHost.registrations (P2PHost.new game numPlayers matchID) <-> false = true.
Proof. split; [intros H; inversion H | discriminate]. Qed.

(** X1. Whatever calls a router receives after it was built, its map holds
    every client at most once; and calls on any router whose map does, keep
    it so. *)
Theorem router_never_holds_a_client_twice store ops :
  (forall game numPlayers matchID,
     NoDup (P2PHost.registrations
              (P2PHost.steps store ops (P2PHost.new game numPlayers matchID))))
  /\ (forall h, NoDup (P2PHost.registrations h) ->
                NoDup (P2PHost.registrations (P2PHost.steps store ops h))).
Proof.
  split.
  - intros game numPlayers matchID. apply wf_steps, wf_new.
  - intros h. apply wf_steps.
Qed.

(** X2. After any calls on a new router, a client is in the registration
    map exactly when the last call that names it is a [registerClient]:
    nothing leaks, nothing is kept after its [unregisterClient]. *)
Theorem registered_iff_last_call_registers store ops game numPlayers matchID c :
  c ∈ P2PHost.registrations (P2PHost.steps store ops (P2PHost.new game numPlayers matchID))
  <-> P2PHost.live_after ops c false = true.
Proof.
  apply steps_registered; [apply wf_new | apply new_has_no_registration].
Qed.

(** X3. The master of a router hears every call in the order the router
    received them: one [onConnectionChange] per [registerClient] and
    [unregisterClient] (also when the map did not change), one call of the
    selected method per action with a known tag, nothing for another tag. *)
Theorem master_hears_every_call_in_order store ops h :
  received (P2PHost.master (P2PHost.steps store ops h))
  = received (P2PHost.master h)
    ++ List.flat_map (P2PHost.calls_of store (P2PHost.matchID h)) ops.
Proof.
  unfold P2PHost.steps. revert h.
  induction ops as [|op ops' IH]; intros h; simpl; [now rewrite app_nil_r|].
  destruct (step_fixed_parts store h op) as (E2 & _ & _ & E5).
  rewrite IH, E2, E5. now rewrite <- app_assoc.
Qed.

(** X4. [unregisterClient] undoes the [registerClient] of a client that was
    not registered, leaving the map with its entries in their order; for a
    client that was registered before, the two calls remove it. *)
Theorem unregister_after_register store h c :
  P2PHost.wf h ->
  (c ∉ P2PHost.registrations h ->
     P2PHost.clients (P2PHost.unregisterClient store c (P2PHost.registerClient store c h))
     = P2PHost.clients h)
  /\ (c ∉ P2PHost.registrations
            (P2PHost.unregisterClient store c (P2PHost.registerClient store c h))).
Proof.
  intros Hwf. split.
  - intros Hc. simpl. now apply delete_set_absent.
  - unfold P2PHost.registrations. simpl.
    apply not_elem_of_keys_delete. now apply NoDup_keys_set.
Qed.

Lemma unregister_after_register_witness :
  P2PHost.clients (P2PHost.unregisterClient Example.seated 5%nat
                     (P2PHost.registerClient Example.seated 5%nat
                        (Example.host Example.seated)))
  = P2PHost.clients (Example.host Example.seated).
Proof.
  apply (unregister_after_register Example.seated (Example.host Example.seated) 5%nat
           (wf_example Example.seated)).
  rewrite example_registrations, list_elem_of_In. simpl. lia.
Defined.

(** X5. Once a client is unregistered, no fan-out calls its [send],
    whatever the sends of the other clients do. *)
Theorem unregistered_client_is_never_called store h c data :
  P2PHost.wf h ->
  let h' := P2PHost.unregisterClient store c h in
  (c ∉ (P2PHost.master_sendAll store h' data).1)
  /\ (forall target, c ∉ (P2PHost.master_send store h' target data).1).
Proof.
  intros Hwf h'.
  assert (Hgone : c ∉ P2PHost.registrations h').
  { unfold P2PHost.registrations. simpl. now apply not_elem_of_keys_delete. }
  split.
  - intros Hin. apply Hgone. eapply sendAll_loop_called. exact Hin.
  - intros target Hin. apply Hgone. eapply send_loop_called. exact Hin.
Qed.

Lemma unregistered_client_is_never_called_witness :
  1%nat ∉ (P2PHost.master_sendAll Example.broken
             (P2PHost.unregisterClient Example.broken 1%nat (Example.host Example.broken))
             Example.payload).1.
Proof.
  apply (unregistered_client_is_never_called Example.broken (Example.host Example.broken)
           1%nat Example.payload (wf_example Example.broken)).
Defined.

(** X6. After any calls on a new router, when the sends return,
    [sendAll] returns and has called each client once if the last call that
    names it is a [registerClient], and not at all otherwise. *)
Theorem sendAll_reaches_exactly_the_live_clients store ops game numPlayers matchID data :
  (forall c, P2PHost.returns store data c) ->
  let h := P2PHost.steps store ops (P2PHost.new game numPlayers matchID) in
  (P2PHost.master_sendAll store h data).2 = Normal tt
  /\ forall c,
       count_occ Nat.eq_dec (P2PHost.master_sendAll store h data).1 c
       = if P2PHost.live_after ops c false then 1%nat else 0%nat.
Proof.
  intros Hok h.
  assert (Hwf : P2PHost.wf h) by (apply wf_steps, wf_new).
  assert (HA : P2PHost.master_sendAll store h data = (P2PHost.registrations h, Normal tt))
    by (apply sendAll_loop_returns; intros c _; apply Hok).
  rewrite HA. split; [reflexivity|]. intros c. simpl.
  pose proof (steps_registered store ops c (P2PHost.new game numPlayers matchID) false
                (wf_new game numPlayers matchID)
                (new_has_no_registration game numPlayers matchID c)) as Hlive.
  fold h in Hlive.
  destruct (P2PHost.live_after ops c false).
  - apply count_occ_NoDup; [exact Hwf | now apply Hlive].
  - apply count_occ_absent. intros Hin. apply Hlive in Hin. discriminate.
Qed.

Lemma sendAll_reaches_exactly_the_live_clients_witness :
  (P2PHost.master_sendAll Example.seated
     (P2PHost.steps Example.seated
        [P2PHost.Register 0%nat; P2PHost.Register 1%nat; P2PHost.Unregister 0%nat;
         P2PHost.Register 1%nat]
        (P2PHost.new 0%nat None "M1"))
     Example.payload).2
  = Normal tt.
Proof.
  apply (sendAll_reaches_exactly_the_live_clients Example.seated
           [P2PHost.Register 0%nat; P2PHost.Register 1%nat; P2PHost.Unregister 0%nat;
            P2PHost.Register 1%nat] 0%nat None "M1" Example.payload example_returns).
Defined.

(** * Further properties of the transport *)

Lemma PlayerID_eqb_refl (p : PlayerID) : PlayerID_eqb p p = true.
Proof. now apply PlayerID_eqb_eq. Qed.

Lemma PlayerID_eqb_neq (a b : PlayerID) : a <> b -> PlayerID_eqb a b = false.
Proof.
  intros Hne. destruct (PlayerID_eqb a b) eqn:E; [|reflexivity].
  now apply PlayerID_eqb_eq in E.
Qed.

Section HostTransport.
Import P2PTransport.
Implicit Types (self : t) (w : World).

(** The world a host finds when [connect()] has returned. *)
Lemma connect_host_world self w :
  isHost self = true ->
  let seat := Transport.playerID (base self) in
  let loopback := {| send := Transport.clientCallback (base self);
                     metadata := {| playerID := seat |} |} in
  let router :=
    {| P2PHost.clients := [(allocated w, allocated w)];
       P2PHost.matchID := Transport.matchID (base self);
       P2PHost.master :=
         {| master_game := game self;
            master_db := [(Transport.matchID (base self),
                           {| seed_game := game self;
                              seed_numPlayers := Transport.numPlayers (base self) |})];
            received :=
              [{| method := onConnectionChange;
                  arguments := [JSString (Transport.matchID (base self));
                                PlayerID_value seat; JSUndefined; JSBool true] |};
               {| method := onSync; arguments := args (syncAction self) |}] |} |} in
  (connect (self, w)).1
  = with_base (Transport.setConnectionStatus true)
      (set_emit (EmitToHost (length (hosts w))) (set_peer (Obj (length (peers w))) self))
  /\ hosts (connect (self, w)).2 = hosts w ++ [router]
  /\ store (connect (self, w)).2
     = (fun r => if Nat.eqb r (allocated w) then loopback else store w r)
  /\ allocated (connect (self, w)).2 = S (allocated w)
  /\ connections (connect (self, w)).2 = connections w
  /\ accepted (connect (self, w)).2 = accepted w
  /\ peers (connect (self, w)).2
     = peers w ++ [{| peer_id := namespacedPeerID self; peer_options := peerJSOptions self;
                      on_connection := Some (length (hosts w)); on_open := None;
                      destroyed := false |}].
Proof.
  intros Hrole. rewrite connect_host by assumption.
  destruct self as [[gn mid pid cr np ic cb] pr opts ih g em], w as [hs sto al pes cs acc].
  unfold syncAction, P2PHost.processAction, P2PHost.registerClient. simpl.
  rewrite Nat.eqb_refl. repeat split; reflexivity.
Qed.
End HostTransport.

(** X7. On a host that has connected, the router's fan-outs reach the
    host's own player through the loopback client: [sendAll] and [send] to
    the host's seat call the loopback client only and complete as the
    application callback does (also when it throws); [send] to another seat
    calls nobody. *)
Theorem host_reaches_itself_through_loopback (self : P2PTransport.t) (w : World)
    (data : Data) (target : PlayerID) :
  P2PTransport.isHost self = true ->
  let st := P2PTransport.connect (self, w) in
  let seat := Transport.playerID (P2PTransport.base self) in
  let callback := Transport.clientCallback (P2PTransport.base self) in
  exists router,
    hosts st.2 !! length (hosts w) = Some router
    /\ P2PHost.registrations router = [allocated w]
    /\ P2PHost.master_sendAll (store st.2) router data = ([allocated w], callback data)
    /\ P2PHost.master_send (store st.2) router seat data = ([allocated w], callback data)
    /\ (target <> seat ->
        P2PHost.master_send (store st.2) router target data = ([], Normal tt)).
Proof.
  intros Hrole st seat callback.
  destruct (connect_host_world self w Hrole) as (_ & Hh & Hs & _).
  subst st. rewrite Hh, Hs, lookup_snoc.
  eexists. split; [reflexivity|]. split; [reflexivity|].
  unfold P2PHost.master_sendAll, P2PHost.master_send. simpl.
  rewrite Nat.eqb_refl. simpl. fold seat callback.
  rewrite PlayerID_eqb_refl. simpl.
  repeat split.
  - destruct (callback data) as [[]|e]; reflexivity.
  - destruct (callback data) as [[]|e]; reflexivity.
  - intros Hne. rewrite PlayerID_eqb_neq by congruence. reflexivity.
Qed.

Lemma host_reaches_itself_through_loopback_witness :
  exists router,
    hosts (P2PTransport.connect Example.hosting).2 !! 0%nat = Some router
    /\ P2PHost.master_send (store (P2PTransport.connect Example.hosting).2) router
         (Some "0") Example.payload
       = ([0%nat], Normal tt).
Proof.
  destruct (host_reaches_itself_through_loopback
              (P2PTransport.new true 0%nat 0%nat Example.base) Example.world
              Example.payload None eq_refl) as (router & Hr & _ & _ & Hs & _).
  exists router. split; [exact Hr | exact Hs].
Defined.

(** X8. On a host that has connected, [sendAction] and [sendChatMessage]
    are processed by the local router before they return: its master has
    received, after the connection notice and the [Sync] of [connect()],
    [onUpdate(action, stateID, matchID, playerID)] and then
    [onChatMessage(matchID, chatMessage, credentials)], the chat carrying
    the match ID it was called with. The transport itself is unchanged. *)
Theorem host_actions_reach_local_master (self : P2PTransport.t) (w : World)
    (stateID action chatMessage : JSValue) (matchID : string) :
  P2PTransport.isHost self = true ->
  let st0 := P2PTransport.connect (self, w) in
  let st := P2PTransport.sendChatMessage matchID chatMessage
              (P2PTransport.sendAction stateID action st0) in
  let seat := Transport.playerID (P2PTransport.base self) in
  st.1 = st0.1
  /\ exists router,
       hosts st.2 !! length (hosts w) = Some router
       /\ received (P2PHost.master router)
          = [{| method := onConnectionChange;
                arguments := [JSString (Transport.matchID (P2PTransport.base self));
                              PlayerID_value seat; JSUndefined; JSBool true] |};
             {| method := onSync; arguments := args (P2PTransport.syncAction self) |};
             {| method := onUpdate;
                arguments := [action; stateID;
                              JSString (Transport.matchID (P2PTransport.base self));
                              PlayerID_value seat] |};
             {| method := onChatMessage;
                arguments := [JSString matchID; chatMessage;
                              credentials_value
                                (Transport.credentials (P2PTransport.base self))] |}].
Proof.
  intros Hrole st0 st seat.
  destruct (connect_host_world self w Hrole) as (H1 & Hh & _).
  subst st st0. destruct (P2PTransport.connect (self, w)) as [self' w'].
  simpl in H1, Hh. subst self'.
  destruct self as [[gn mid pid cr np ic cb] pr opts ih g em], w' as [hs' sto al pes cs acc].
  simpl in *. subst hs'. split; [reflexivity|].
  rewrite !alter_snoc, lookup_snoc. eexists. split; reflexivity.
Qed.

Lemma host_actions_reach_local_master_witness :
  exists router,
    hosts (P2PTransport.sendChatMessage "M1" (JSObject 9)
             (P2PTransport.sendAction (JSNumber 0) (JSObject 8)
                (P2PTransport.connect Example.hosting))).2 !! 0%nat = Some router
    /\ length (received (P2PHost.master router)) = 4%nat.
Proof.
  destruct (host_actions_reach_local_master
              (P2PTransport.new true 0%nat 0%nat Example.base) Example.world
              (JSNumber 0) (JSObject 8) (JSObject 9) "M1" eq_refl)
    as (_ & router & Hr & Hrec).
  exists router. split; [exact Hr|]. now rewrite Hrec.
Defined.

(** X9. [disconnect()] does not take the emit-path away: on a host that
    connected and disconnected, with the status not Connected and the peer
    handle [null], [sendAction] is still processed by the router of the
    connection that was torn down, whose master receives the [onUpdate]. *)
Theorem disconnected_host_still_processes_actions (self : P2PTransport.t) (w : World)
    (stateID action : JSValue) :
  P2PTransport.isHost self = true ->
  let st := P2PTransport.sendAction stateID action
              (P2PTransport.disconnect (P2PTransport.connect (self, w))) in
  let seat := Transport.playerID (P2PTransport.base self) in
  Transport.isConnected (P2PTransport.base st.1) = false
  /\ P2PTransport.peer st.1 = Null
  /\ exists router,
       hosts st.2 !! length (hosts w) = Some router
       /\ received (P2PHost.master router)
          = [{| method := onConnectionChange;
                arguments := [JSString (Transport.matchID (P2PTransport.base self));
                              PlayerID_value seat; JSUndefined; JSBool true] |};
             {| method := onSync; arguments := args (P2PTransport.syncAction self) |};
             {| method := onUpdate;
                arguments := [action; stateID;
                              JSString (Transport.matchID (P2PTransport.base self));
                              PlayerID_value seat] |}].
Proof.
  intros Hrole st seat.
  destruct (connect_host_world self w Hrole) as (H1 & Hh & _).
  subst st. destruct (P2PTransport.connect (self, w)) as [self' w'].
  simpl in H1, Hh. subst self'.
  destruct self as [[gn mid pid cr np ic cb] pr opts ih g em], w' as [hs' sto al pes cs acc].
  simpl in *. subst hs'. split; [reflexivity|]. split; [reflexivity|].
  rewrite alter_snoc, lookup_snoc. eexists. split; reflexivity.
Qed.

Lemma disconnected_host_still_processes_actions_witness :
  exists router,
    hosts (P2PTransport.sendAction (JSNumber 0) (JSObject 8)
             (P2PTransport.disconnect (P2PTransport.connect Example.hosting))).2 !! 0%nat
    = Some router
    /\ length (received (P2PHost.master router)) = 3%nat.
Proof.
  destruct (disconnected_host_still_processes_actions
              (P2PTransport.new true 0%nat 0%nat Example.base) Example.world
              (JSNumber 0) (JSObject 8) eq_refl)
    as (_ & _ & router & Hr & Hrec).
  exists router. split; [exact Hr|]. now rewrite Hrec.
Defined.

(** X10. On a transport whose emit-path is a connection, [requestSync],
    [sendAction] and [sendChatMessage] give their actions to that
    connection's [send] in the order of the calls, after what was sent
    before; no other connection, no host and nothing of the transport
    changes. *)
Theorem client_actions_leave_in_call_order (self : P2PTransport.t) (w : World)
    (c : ConnRef) (conn : DataConnection)
    (stateID action chatMessage : JSValue) (matchID : string) :
  P2PTransport.emit self = Some (EmitToConnection c) ->
  connections w !! c = Some conn ->
  let st := P2PTransport.sendChatMessage matchID chatMessage
              (P2PTransport.sendAction stateID action
                 (P2PTransport.requestSync (self, w))) in
  st.1 = self
  /\ hosts st.2 = hosts w
  /\ peers st.2 = peers w
  /\ (conn_sent <$> connections st.2 !! c)
     = Some (conn_sent conn
             ++ [P2PTransport.syncAction self;
                 P2PTransport.updateAction self stateID action;
                 P2PTransport.chatAction self matchID chatMessage])
  /\ (forall c', c' <> c -> connections st.2 !! c' = connections w !! c').
Proof.
  intros Hemit Hconn st. subst st.
  unfold P2PTransport.requestSync, P2PTransport.sendAction, P2PTransport.sendChatMessage.
  rewrite Hemit. simpl. rewrite Hemit. simpl. rewrite Hemit. simpl.
  destruct w as [hs sto al pes cs acc]. simpl in *.
  repeat split.
  - rewrite !list_lookup_alter_eq. unfold ConnRef in *. rewrite Hconn. simpl.
    now rewrite <- !app_assoc.
  - intros c' Hne. now rewrite !list_lookup_alter_ne by congruence.
Qed.

Lemma client_actions_leave_in_call_order_witness :
  conn_sent
    <$> connections (P2PTransport.sendChatMessage "M1" (JSObject 9)
                       (P2PTransport.sendAction (JSNumber 0) (JSObject 8)
                          (P2PTransport.requestSync Example.synced_client))).2 !! 0%nat
  = Some ([{| type := "sync";
              args := [JSString "M1"; JSString "0"; JSString "secret"; JSNumber 2] |};
           {| type := "sync";
              args := [JSString "M1"; JSString "0"; JSString "secret"; JSNumber 2] |};
           {| type := "update";
              args := [JSObject 8; JSNumber 0; JSString "M1"; JSString "0"] |};
           {| type := "chat";
              args := [JSString "M1"; JSObject 9; JSString "secret"] |}]).
Proof.
  pose proof (client_actions_leave_in_call_order Example.synced_client.1
                Example.synced_client.2 0%nat _ (JSNumber 0) (JSObject 8) (JSObject 9) "M1"
                eq_refl eq_refl) as (_ & _ & _ & Hsent & _).
  exact Hsent.
Defined.

Lemma syncAction_base (self self' : P2PTransport.t) (b : bool) :
  P2PTransport.base self' = Transport.setConnectionStatus b (P2PTransport.base self) ->
  P2PTransport.syncAction self' = P2PTransport.syncAction self.
Proof.
  unfold P2PTransport.syncAction. intros ->. reflexivity.
Qed.

(** X11. An update of the match ID on a client leaves the emit-path on the
    connection dialled for the old match until the new peer has opened: a
    [requestSync] made in between sends the [Sync] for the new match ID on
    that old connection, and nothing to the new endpoint. *)
Theorem client_update_keeps_old_emit_path (self : P2PTransport.t) (w : World)
    (c : ConnRef) (conn : DataConnection) (id : string) :
  P2PTransport.isHost self = false ->
  P2PTransport.emit self = Some (EmitToConnection c) ->
  connections w !! c = Some conn ->
  let stored := P2PTransport.with_base (Transport.set_matchID id) self in
  let st := P2PTransport.requestSync (P2PTransport.updateMatchID id (self, w)) in
  length (connections st.2) = length (connections w)
  /\ (conn_sent <$> connections st.2 !! c)
     = Some (conn_sent conn ++ [P2PTransport.syncAction stored])
  /\ Transport.matchID (P2PTransport.base st.1) = id.
Proof.
  intros Hrole Hemit Hconn stored st.
  pose proof (resetAndReconnect_reconnected stored w) as Hre.
  unfold P2PTransport.reconnected in Hre.
  replace (P2PTransport.isHost stored) with false in Hre by (now destruct self).
  destruct Hre as (Hb & _ & _ & He & _ & Hc & _).
  subst st. unfold P2PTransport.updateMatchID. fold stored.
  destruct (P2PTransport.resetAndReconnect (stored, w)) as [self' w'].
  simpl in Hb, He, Hc.
  unfold P2PTransport.requestSync. rewrite He, Hemit. simpl.
  rewrite (syncAction_base stored self' true Hb), Hb.
  destruct w' as [hs sto al pes cs acc]. simpl in *. subst cs.
  unfold ConnRef in *. rewrite length_alter, list_lookup_alter_eq, Hconn.
  split; [reflexivity|]. split; reflexivity.
Qed.

Lemma client_update_keeps_old_emit_path_witness :
  conn_sent
    <$> connections (P2PTransport.requestSync
                       (P2PTransport.updateMatchID "M2" Example.synced_client)).2 !! 0%nat
  = Some [{| type := "sync";
             args := [JSString "M1"; JSString "0"; JSString "secret"; JSNumber 2] |};
          {| type := "sync";
             args := [JSString "M2"; JSString "0"; JSString "secret"; JSNumber 2] |}].
Proof.
  pose proof (client_update_keeps_old_emit_path Example.synced_client.1
                Example.synced_client.2 0%nat _ "M2" eq_refl eq_refl eq_refl)
    as (_ & Hsent & _).
  exact Hsent.
Defined.

(** X12. The ['open'] handler of a client reads [this.peer] when it runs
    and keeps the endpoint name computed by the [connect()] that registered
    it. Fired after a [disconnect()] it throws, the handle being [null],
    and changes nothing; fired after an update of the match ID it dials the
    endpoint of the old match ID through the new peer and makes that
    connection the emit-path. *)
Theorem open_handler_uses_current_peer_and_old_name (self : P2PTransport.t) (w : World)
    (id : string) :
  P2PTransport.isHost self = false ->
  let p : PeerRef := length (peers w) in
  let st1 := P2PTransport.connect (self, w) in
  P2PTransport.dispatch (P2PTransport.PeerOpen p) (P2PTransport.disconnect st1)
  = Throw P2PTransport.TypeError
  /\ (let st := P2PTransport.run [P2PTransport.PeerOpen p]
                  (P2PTransport.updateMatchID id st1) in
      P2PTransport.emit st.1 = Some (EmitToConnection (length (connections w)))
      /\ connections st.2
         = connections w
           ++ [{| conn_peer := S p; conn_target := P2PTransport.namespacedPeerID self;
                  conn_metadata :=
                    {| playerID := Transport.playerID (P2PTransport.base self) |};
                  conn_on_open := true; conn_on_data := true; conn_sent := [] |}]).
Proof.
  intros Hrole p st1. subst st1 p. rewrite connect_client by assumption.
  destruct self as [[gn mid pid cr np ic cb] pr opts ih g em], w as [hs sto al pes cs acc].
  simpl in Hrole. subst ih.
  unfold P2PTransport.updateMatchID, P2PTransport.resetAndReconnect,
    P2PTransport.disconnect, P2PTransport.namespacedPeerID. simpl.
  rewrite !alter_snoc. simpl. split.
  - rewrite lookup_snoc. reflexivity.
  - unfold P2PTransport.connect. simpl.
    rewrite lookup_app_l by (rewrite length_app; simpl; lia).
    rewrite lookup_snoc. simpl.
    rewrite length_app. simpl. rewrite Nat.add_1_r. split; reflexivity.
Qed.

Lemma open_handler_uses_current_peer_and_old_name_witness :
  connections (P2PTransport.run [P2PTransport.PeerOpen 0%nat]
                 (P2PTransport.updateMatchID "M2" (P2PTransport.connect Example.client))).2
  = [{| conn_peer := 1%nat;
        conn_target := Some "boardgameio-tic-tac-toe-matchid-M1";
        conn_metadata := {| playerID := Some "0" |};
        conn_on_open := true; conn_on_data := true; conn_sent := [] |}].
Proof.
  exact (proj2 (proj2 (open_handler_uses_current_peer_and_old_name
                         (P2PTransport.new false 0%nat 0%nat Example.base)
                         Example.world "M2" eq_refl))).
Defined.

Lemma find_fresh_key (l : list (ClientRef * HostRef)) (r : ClientRef) (h : HostRef) :
  (forall e, e ∈ l -> e.1 <> r) ->
  find (fun e => Nat.eqb (fst e) r) (l ++ [(r, h)]) = Some (r, h).
Proof.
  unfold ClientRef, HostRef in *.
  induction l as [|e l IH]; simpl; intros Hfresh.
  - now rewrite Nat.eqb_refl.
  - assert (Hne : Nat.eqb (fst e) r = false)
      by (apply Nat.eqb_neq, Hfresh; left).
    rewrite Hne. apply IH. intros e' He'. apply Hfresh. now right.
Qed.

(** X13. A remote peer on a connected host: its ['connection'] event
    registers it after the loopback client; its data are processed by the
    router; its ['close'] event unregisters it, leaving the loopback client
    alone. The master hears, after the host's own connection and [Sync], the
    peer's seat connect, the call its action selects (none for an unknown
    tag), and the seat disconnect. *)
Theorem remote_peer_joins_acts_and_leaves (self : P2PTransport.t) (w : World)
    (client : Client) (data : ClientAction) :
  P2PTransport.isHost self = true ->
  P2PTransport.accepted_allocated w ->
  let p : PeerRef := length (peers w) in
  let h : HostRef := length (hosts w) in
  let r : ClientRef := S (allocated w) in
  let mid := Transport.matchID (P2PTransport.base self) in
  let st0 := P2PTransport.connect (self, w) in
  let st1 := P2PTransport.run [P2PTransport.PeerConnection p client] st0 in
  let st2 := P2PTransport.run [P2PTransport.PeerConnection p client;
                               P2PTransport.ClientData r data;
                               P2PTransport.ClientClose r] st0 in
  store st1.2 r = client
  /\ (P2PHost.registrations <$> hosts st1.2 !! h) = Some [allocated w; r]
  /\ (P2PHost.registrations <$> hosts st2.2 !! h) = Some [allocated w]
  /\ ((fun router => received (P2PHost.master router)) <$> hosts st2.2 !! h)
     = Some ([{| method := onConnectionChange;
                 arguments := [JSString mid;
                               PlayerID_value (Transport.playerID (P2PTransport.base self));
                               JSUndefined; JSBool true] |};
              {| method := onSync; arguments := args (P2PTransport.syncAction self) |};
              {| method := onConnectionChange;
                 arguments := [JSString mid; PlayerID_value (playerID (metadata client));
                               JSUndefined; JSBool true] |}]
             ++ P2PHost.calls_of (store w) mid (P2PHost.Process data)
             ++ [{| method := onConnectionChange;
                    arguments := [JSString mid; PlayerID_value (playerID (metadata client));
                                  JSUndefined; JSBool false] |}]).
Proof.
  intros Hrole Hacc p h r mid st0 st1 st2.
  subst st1 st2 st0 p h r mid. rewrite connect_host by assumption.
  destruct self as [[gn mid pid cr np ic cb] pr opts ih g em], w as [hs sto al pes cs acc].
  unfold P2PTransport.accepted_allocated in Hacc. simpl in Hacc, Hrole. subst ih.
  assert (Hfind : forall h, find (fun e => Nat.eqb (fst e) (S al)) (acc ++ [(S al, h)])
                            = Some (S al, h)).
  { intros h. apply find_fresh_key. intros e He. specialize (Hacc e He).
    unfold ClientRef in *. lia. }
  assert (Hne1 : Nat.eqb al (S al) = false) by (apply Nat.eqb_neq; lia).
  assert (Hne2 : Nat.eqb (S al) al = false) by (apply Nat.eqb_neq; lia).
  unfold P2PTransport.syncAction, P2PTransport.run, P2PTransport.dispatch,
    P2PTransport.peer_connection, P2PTransport.handler_of. simpl.
  repeat (progress (rewrite ?lookup_snoc, ?alter_snoc, ?Hfind; simpl)).
  rewrite !(processAction_calls sto).
  unfold P2PHost.registrations, P2PHost.registerClient, P2PHost.unregisterClient. simpl.
  rewrite ?Nat.eqb_refl, ?Hne1, ?Hne2. simpl. rewrite ?Nat.eqb_refl, ?Hne1, ?Hne2. simpl.
  split; [reflexivity|]. split; [reflexivity|]. split; reflexivity.
Qed.

Lemma remote_peer_joins_acts_and_leaves_witness :
  (P2PHost.registrations
     <$> hosts (P2PTransport.run
                  [P2PTransport.PeerConnection 0%nat (Example.seated 1%nat)]
                  (P2PTransport.connect Example.hosting)).2 !! 0%nat)
  = Some [0; 1]%nat
  /\ (P2PHost.registrations
        <$> hosts (P2PTransport.run
                     [P2PTransport.PeerConnection 0%nat (Example.seated 1%nat);
                      P2PTransport.ClientData 1%nat {| type := "ping"; args := [] |};
                      P2PTransport.ClientClose 1%nat]
                     (P2PTransport.connect Example.hosting)).2 !! 0%nat)
     = Some [0%nat].
Proof.
  assert (Hacc : P2PTransport.accepted_allocated Example.world)
    by (intros e He; inversion He).
  pose proof (remote_peer_joins_acts_and_leaves
                (P2PTransport.new true 0%nat 0%nat Example.base) Example.world
                (Example.seated 1%nat) {| type := "ping"; args := [] |} eq_refl Hacc)
    as (_ & H1 & H2 & _).
  split; [exact H1 | exact H2].
Defined.

Lemma append_cancel_l (a x y : string) : a +:+ x = a +:+ y -> x = y.
Proof.
  induction a as [|ch a IH]; simpl; intros H; [exact H|].
  injection H as H. now apply IH.
Qed.

(** X14. With an empty match ID there is no endpoint name: the host creates
    its peer without a name of its own, and the client dials [undefined]
    when its peer opens. *)
Theorem empty_matchID_has_no_endpoint (self : P2PTransport.t) (w : World) :
  Transport.matchID (P2PTransport.base self) = "" ->
  let p : PeerRef := length (peers w) in
  P2PTransport.namespacedPeerID self = None
  /\ (P2PTransport.isHost self = true ->
      peer_id <$> peers (P2PTransport.connect (self, w)).2 !! p = Some None)
  /\ (P2PTransport.isHost self = false ->
      conn_target
        <$> connections (P2PTransport.run [P2PTransport.PeerOpen p]
                           (P2PTransport.connect (self, w))).2 !! length (connections w)
      = Some None).
Proof.
  intros Hid p.
  assert (Hname : P2PTransport.namespacedPeerID self = None)
    by (unfold P2PTransport.namespacedPeerID; now rewrite Hid).
  split; [exact Hname|]. split; intros Hrole; subst p.
  - destruct (connect_host_world self w Hrole) as (_ & _ & _ & _ & _ & _ & Hp).
    rewrite Hp, lookup_snoc. simpl. now rewrite Hname.
  - destruct (client_dials_then_syncs self w Hrole) as ((_ & _ & _ & _ & Hc) & _).
    rewrite Hc, lookup_snoc. simpl. now rewrite Hname.
Qed.

Lemma empty_matchID_has_no_endpoint_witness :
  peer_id
    <$> peers (P2PTransport.connect
                 (P2PTransport.new true 0%nat 0%nat (Transport.set_matchID "" Example.base),
                  Example.world)).2 !! 0%nat
  = Some None.
Proof.
  apply (empty_matchID_has_no_endpoint
           (P2PTransport.new true 0%nat 0%nat (Transport.set_matchID "" Example.base))
           Example.world); reflexivity.
Defined.

(** X15. Within one game the endpoint name tells the matches apart: two
    transports with the same game name and the same endpoint name have the
    same match ID. *)
Theorem endpoint_name_determines_matchID (self1 self2 : P2PTransport.t) :
  Transport.gameName (P2PTransport.base self1) = Transport.gameName (P2PTransport.base self2) ->
  P2PTransport.namespacedPeerID self1 = P2PTransport.namespacedPeerID self2 ->
  Transport.matchID (P2PTransport.base self1) = Transport.matchID (P2PTransport.base self2).
Proof.
  unfold P2PTransport.namespacedPeerID. intros Hgame.
  destruct (Transport.matchID (P2PTransport.base self1)) as [|c1 m1] eqn:E1;
    destruct (Transport.matchID (P2PTransport.base self2)) as [|c2 m2] eqn:E2;
    simpl; try discriminate; [reflexivity|].
  rewrite Hgame. intros [= H].
  do 2 apply append_cancel_l in H.
  change ("-matchid-" +:+ String c1 m1 = "-matchid-" +:+ String c2 m2) in H.
  now apply append_cancel_l in H.
Qed.

Lemma endpoint_name_determines_matchID_witness :
  Transport.matchID (P2PTransport.base Example.client.1)
  = Transport.matchID (P2PTransport.base Example.hosting.1).
Proof.
  apply (endpoint_name_determines_matchID Example.client.1 Example.hosting.1);
    reflexivity.
Defined.

Lemma append_assoc' (a b c : string) : (a +:+ b) +:+ c = a +:+ (b +:+ c).
Proof.
  induction a as [|ch a IH]; [reflexivity|].
  change (String ch ((a +:+ b) +:+ c) = String ch (a +:+ (b +:+ c))).
  now rewrite IH.
Qed.

Lemma truthy_append (a b : string) :
  P2PTransport.truthy b = true -> P2PTransport.truthy (a +:+ b) = true.
Proof. destruct a; [trivial | reflexivity]. Qed.

(** X16. Across games the endpoint name does not tell the matches apart:
    whenever a game name has the form [g-matchid-m], its match [m'] gets
    the endpoint name of the match [m-matchid-m'] of game [g], so a client
    of the one dials the host of the other. *)
Theorem endpoint_names_collide_across_games (self1 self2 : P2PTransport.t)
    (g m m' : string) :
  m' <> "" ->
  Transport.gameName (P2PTransport.base self1) = g +:+ "-matchid-" +:+ m ->
  Transport.matchID (P2PTransport.base self1) = m' ->
  Transport.gameName (P2PTransport.base self2) = g ->
  Transport.matchID (P2PTransport.base self2) = m +:+ "-matchid-" +:+ m' ->
  P2PTransport.namespacedPeerID self1 = P2PTransport.namespacedPeerID self2
  /\ P2PTransport.namespacedPeerID self1
     = Some ("boardgameio-" +:+ g +:+ "-matchid-" +:+ m +:+ "-matchid-" +:+ m').
Proof.
  intros Hm' Hg1 Hm1 Hg2 Hm2. unfold P2PTransport.namespacedPeerID.
  rewrite Hg1, Hm1, Hg2, Hm2.
  rewrite (truthy_nonempty m' Hm').
  rewrite (truthy_append m ("-matchid-" +:+ m')) by reflexivity.
  rewrite !append_assoc'. split; reflexivity.
Qed.

Lemma endpoint_names_collide_across_games_witness :
  P2PTransport.namespacedPeerID (Example.playing "a-matchid-b" "c")
  = P2PTransport.namespacedPeerID (Example.playing "a" "b-matchid-c").
Proof.
  apply (endpoint_names_collide_across_games (Example.playing "a-matchid-b" "c")
           (Example.playing "a" "b-matchid-c") "a" "b" "c");
    [discriminate | reflexivity..].
Defined.

Lemma disconnect_frame (self : P2PTransport.t) (w : World) :
  let st := P2PTransport.disconnect (self, w) in
  st.1 = P2PTransport.with_base (Transport.setConnectionStatus false)
           (P2PTransport.set_peer Null self)
  /\ hosts st.2 = hosts w
  /\ store st.2 = store w
  /\ allocated st.2 = allocated w
  /\ connections st.2 = connections w
  /\ accepted st.2 = accepted w
  /\ length (peers st.2) = length (peers w)
  /\ (forall p, P2PTransport.peer self <> Obj p -> peers st.2 !! p = peers w !! p).
Proof.
  unfold P2PTransport.disconnect. simpl.
  destruct (P2PTransport.peer self) as [| |old]; simpl; repeat split; trivial.
  - apply length_alter.
  - intros p Hp. apply list_lookup_alter_ne. congruence.
Qed.

(** X17. [disconnect()] followed by [connect()], as every update of an
    identity parameter runs them, when no accepted remote client has its
    ['close'] handler on the router of the peer the transport holds (so that
    ending the connections of that peer runs no handler): what existed is
    left alone except that peer. The routers built by earlier [connect()]
    calls keep their registrations, the loopback client included, and their
    masters are told nothing; the dialled connections and what was sent on
    them stay, and so do the client objects and the other peers. *)
Theorem reconnect_leaves_existing_objects (stored : P2PTransport.t) (w : World) :
  (forall old e, P2PTransport.peer stored = Obj old -> e ∈ accepted w ->
                 peers w !! old ≫= on_connection <> Some e.2) ->
  let st := P2PTransport.resetAndReconnect (stored, w) in
  (forall h, (h < length (hosts w))%nat -> hosts st.2 !! h = hosts w !! h)
  /\ connections st.2 = connections w
  /\ accepted st.2 = accepted w
  /\ (forall r, (r < allocated w)%nat -> store st.2 r = store w r)
  /\ (forall p, (p < length (peers w))%nat -> P2PTransport.peer stored <> Obj p ->
        peers st.2 !! p = peers w !! p).
Proof.
  intros _.
  unfold P2PTransport.resetAndReconnect. cbv zeta.
  destruct (disconnect_frame stored w) as (H1 & Hh & Hs & Ha & Hc & Hacc & Hlen & Hp).
  destruct (P2PTransport.disconnect (stored, w)) as [self0 w0].
  simpl in H1, Hh, Hs, Ha, Hc, Hacc, Hlen, Hp.
  destruct (P2PTransport.isHost self0) eqn:Hrole.
  - destruct (connect_host_world self0 w0 Hrole) as (_ & Eh & Es & _ & Ec & Eacc & Ep).
    rewrite Eh, Es, Ec, Eacc, Ep, Hh, Hs, Ha, Hc, Hacc.
    split; [|split; [reflexivity|split; [reflexivity|split]]].
    + intros h Hlt. now apply lookup_app_l.
    + intros r Hlt. destruct (Nat.eqb_spec r (allocated w)) as [->|_]; [lia | reflexivity].
    + intros p Hlt Hne. rewrite lookup_app_l by (rewrite Hlen; exact Hlt). now apply Hp.
  - rewrite connect_client by assumption. simpl.
    rewrite Hh, Hs, Hc, Hacc.
    split; [reflexivity|]. split; [reflexivity|]. split; [reflexivity|].
    split; [reflexivity|].
    intros p Hlt Hne. rewrite lookup_app_l by (rewrite Hlen; exact Hlt). now apply Hp.
Qed.

Lemma reconnect_leaves_existing_objects_witness :
  hosts (P2PTransport.updateMatchID "M2" (P2PTransport.connect Example.hosting)).2 !! 0%nat
  = hosts (P2PTransport.connect Example.hosting).2 !! 0%nat.
Proof.
  apply (reconnect_leaves_existing_objects
           (P2PTransport.with_base (Transport.set_matchID "M2")
              (P2PTransport.connect Example.hosting).1)
           (P2PTransport.connect Example.hosting).2).
  - intros old e _ He. inversion He.
  - simpl. lia.
Defined.

(** X18. The transport [P2P] builds is a host only when [isHost] was given
    as true. Then [connect()] builds a router and makes it the emit-path.
    Otherwise, also when [isHost] was left out, [connect()] builds no
    router and installs no emit-path, so that until the peer has opened a
    [requestSync] does nothing. *)
Theorem P2P_is_a_client_by_default (opts : P2PTransport.P2POpts) (game : Game)
    (b : Transport.t) (w : World) :
  let self := P2PTransport.P2P opts game b in
  let st := P2PTransport.connect (self, w) in
  (P2PTransport.opt_isHost opts = Some true ->
     length (hosts st.2) = S (length (hosts w))
     /\ P2PTransport.emit st.1 = Some (EmitToHost (length (hosts w))))
  /\ (P2PTransport.opt_isHost opts <> Some true ->
      hosts st.2 = hosts w
      /\ P2PTransport.emit st.1 = None
      /\ P2PTransport.requestSync st = st).
Proof.
  intros self st. split; intros Hopt.
  - assert (Hrole : P2PTransport.isHost self = true)
      by (subst self; unfold P2PTransport.P2P; now rewrite Hopt).
    destruct (connect_host_world self w Hrole) as (E1 & Eh & _).
    subst st. rewrite E1, Eh, length_app. simpl. split; [lia | reflexivity].
  - assert (Hrole : P2PTransport.isHost self = false).
    { subst self. unfold P2PTransport.P2P.
      destruct (P2PTransport.opt_isHost opts) as [[]|]; [congruence | reflexivity..]. }
    subst st. rewrite connect_client by assumption.
    destruct w. repeat split.
Qed.

Lemma P2P_is_a_client_by_default_witness :
  P2PTransport.emit
    (P2PTransport.connect
       (P2PTransport.P2P {| P2PTransport.opt_isHost := None;
                            P2PTransport.opt_peerJSOptions := None |} 0%nat Example.base,
        Example.world)).1
  = None.
Proof.
  apply (P2P_is_a_client_by_default
           {| P2PTransport.opt_isHost := None; P2PTransport.opt_peerJSOptions := None |}
           0%nat Example.base Example.world).
  discriminate.
Defined.
